(** * Authors and owners: the binary and JSON codecs of [types/author.go]

    A shallow embedding of [src/types/author.go] (package [types]) and the
    properties of its owner factory [GenerateOwner], of the storage codec
    [Author.encode] / [Author.decode] and of the JSON codec
    [Author.MarshalJSON] / [Author.UnmarshalJSON].

    Conventions.
    - A Go [string] is a sequence of bytes: [String.string].
    - A Go [[]byte] is a [list byte].
    - [uint8] and [uint64] values are [N]; no arithmetic is done on them in
      this file, so no wrap-around is written out.
    - A Go function returning [(T, error)] returns a [result T]; a method
      that assigns to its receiver and returns [error] returns the new
      receiver together with an [option error]. *)

From Stdlib Require Import String Ascii List Arith NArith Bool Lia.
From Stdlib Require Import DecimalString DecimalN.
From Stdlib.Strings Require Import Byte.
Import ListNotations.
Local Open Scope string_scope.
Local Open Scope N_scope.

Set Implicit Arguments.

(** ** Errors *)

(** The values of Go's [error] interface that occur in this file. *)
Inductive error : Type :=
| errors_New (msg : string)            (* errors.New(msg) *)
| hex_InvalidByteError (c : ascii)     (* encoding/hex *)
| hex_ErrLength                        (* encoding/hex *)
| rlp_error (msg : string)             (* any error of the rlp package *)
| json_error (msg : string).           (* any error of encoding/json *)

Inductive result (A : Type) : Type :=
| Ok (x : A)
| Err (e : error).
Arguments Ok {A} x.
Arguments Err {A} e.

(** ** Library functions of Go used by [GenerateOwner] *)

(** [strings.HasPrefix(s, prefix)]. *)
Definition strings_HasPrefix (s pre : string) : bool := String.prefix pre s.

(** [strings.Split(s, sep)] for a non-empty [sep] (the only call passes
    ["0x"]): [s] is cut at each occurrence of [sep], found from left to
    right without overlap; the pieces between the occurrences are returned,
    one more than there are occurrences.

    [Split_from sep skip cur s] scans [s]; [cur] is the piece being
    collected and [skip] the number of bytes of an occurrence of [sep] still
    to be stepped over. *)
Fixpoint Split_from (sep : string) (skip : nat) (cur : string) (s : string)
  : list string :=
  match s with
  | EmptyString => [cur]
  | String c s' =>
      match skip with
      | S k => Split_from sep k cur s'
      | O =>
          if String.prefix sep s
          then cur :: Split_from sep (String.length sep - 1) EmptyString s'
          else Split_from sep 0 (cur ++ String c EmptyString) s'
      end
  end.

Definition strings_Split (s sep : string) : list string :=
  Split_from sep 0 EmptyString s.

(** [encoding/hex]: the value of a hexadecimal digit, [None] for any other
    byte ([reverseHexTable] holds 0xff there). *)
Definition fromHexChar (c : ascii) : option N :=
  let n := N_of_ascii c in
  if (48 <=? n) && (n <=? 57) then Some (n - 48)          (* '0'..'9' *)
  else if (97 <=? n) && (n <=? 102) then Some (n - 87)    (* 'a'..'f' *)
  else if (65 <=? n) && (n <=? 70) then Some (n - 55)     (* 'A'..'F' *)
  else None.

(** The byte [(a << 4) | b] of two digit values. *)
Definition hex_byte (a b : N) : byte :=
  match Byte.of_N (N.lor (N.shiftl a 4) b) with
  | Some x => x
  | None => x00
  end.

(** [hex.DecodeString(s)].  The digits are read two at a time.  The result
    is the pair Go returns: the bytes decoded before the first error, and
    the error, if any (the documentation of the function: "If the input is
    malformed, DecodeString returns the bytes decoded before the error";
    so since Go 1.10, before which the bytes were nil on an error).  An odd
    length is reported by [ErrLength] unless the last byte is not a
    digit. *)
Fixpoint hex_DecodeString (s : string) : list byte * option error :=
  match s with
  | EmptyString => ([], None)
  | String p EmptyString =>
      match fromHexChar p with
      | None => ([], Some (hex_InvalidByteError p))
      | Some _ => ([], Some hex_ErrLength)
      end
  | String p (String q rest) =>
      match fromHexChar p with
      | None => ([], Some (hex_InvalidByteError p))
      | Some a =>
          match fromHexChar q with
          | None => ([], Some (hex_InvalidByteError q))
          | Some b =>
              let '(d, err) := hex_DecodeString rest in
              (hex_byte a b :: d, err)
          end
      end
  end.

(** ** The inner function [f] of [GenerateOwner] *)

(** The text handed to [hex.DecodeString] (the variable [formatStr]):
    [in] itself, or element 1 of [strings.Split(in, "0x")] when [in] starts
    with ["0x"].  Indexing a Go slice out of range panics; with the prefix
    present the slice has at least two elements (lemma
    [Split_0x_prefix_index1] below), so the default of [nth] is never
    used. *)
Definition formatStr (input : string) : string :=
  if strings_HasPrefix input "0x"
  then nth 1 (strings_Split input "0x") EmptyString
  else input.

(** [f(in)]: the decoded bytes; the error of [hex.DecodeString] is dropped
    ([d, _ := hex.DecodeString(formatStr)]). *)
Definition f (input : string) : list byte :=
  fst (hex_DecodeString (formatStr input)).

(** ** The identity types and the collaborators *)

(** [AuthorType] is a [uint8]; the three tags are declared with [iota]. *)
Definition AuthorType := N.
Definition AccountNameType : AuthorType := 0.
Definition PubKeyType : AuthorType := 1.
Definition AddressType : AuthorType := 2.

(** Modelled from the spec: the type [Name] is declared in package [types]
    outside [author.go]; the data model gives it as [Name(string)], and
    [author.go] converts a [string] to it ([Name(author)],
    [Name(aj.OwnerStr)]). *)
Definition Name := string.

(** The types [PubKey] and [Address] of package [types] and their methods
    are declared outside [author.go] as well.  [author.go] uses only what
    is listed here, so they are taken as parameters:
    - [PubKey_new] is the value of [*new(PubKey)], the zero value;
    - [PubKey_SetBytes k b] is [k] after [k.SetBytes(b)];
    - [PubKey_String k] is [k.String()]; likewise for [Name] and [Address];
    - [HexToPubKey] is the function of that name. *)
Class IdentityTypes : Type := {
  PubKey : Type;
  Address : Type;
  Name_String : Name -> string;
  PubKey_new : PubKey;
  PubKey_SetBytes : PubKey -> list byte -> PubKey;
  PubKey_String : PubKey -> string;
  HexToPubKey : string -> PubKey;
  Address_new : Address;
  Address_SetBytes : Address -> list byte -> Address;
  Address_String : Address -> string
}.

(** The codec of package [rlp] at one Go type: [rlp.EncodeToBytes(&v)] and
    [rlp.DecodeBytes(b, &v)] for a fresh variable [v] of that type. *)
Class Rlp (T : Type) : Type := {
  rlp_EncodeToBytes : T -> result (list byte);
  rlp_DecodeBytes : list byte -> result T
}.

(** What the storage codec expects of its collaborator: decoding what was
    encoded gives the value back. *)
Class RlpLossless (T : Type) {codec : Rlp T} : Prop := {
  rlp_decode_encode :
    forall (v : T) b, rlp_EncodeToBytes v = Ok b -> rlp_DecodeBytes b = Ok v
}.
Arguments RlpLossless T {codec}.

Section AuthorModel.

Context {ids : IdentityTypes}.

(** ** Owners and authors *)

(** The interface [Owner] ([String() string]).  A value of an interface
    type is nil or holds a value of some dynamic type; the type switches of
    [author.go] tell [Name], [PubKey] and [Address] from every other
    dynamic type, of which only the type's name and the result of
    [String()] are kept. *)
Inductive Owner : Type :=
| Owner_nil
| Owner_Name (n : Name)
| Owner_PubKey (k : PubKey)
| Owner_Address (ad : Address)
| Owner_other (dyn_type : string) (str : string).

(** The owner is one of the three types the codecs handle. *)
Definition known_variant (o : Owner) : bool :=
  match o with
  | Owner_Name _ | Owner_PubKey _ | Owner_Address _ => true
  | Owner_nil | Owner_other _ _ => false
  end.

(** The tag that goes with a known variant. *)
Definition variant_tag (o : Owner) : option AuthorType :=
  match o with
  | Owner_Name _ => Some AccountNameType
  | Owner_PubKey _ => Some PubKeyType
  | Owner_Address _ => Some AddressType
  | Owner_nil | Owner_other _ _ => None
  end.

(** [o.String()], for a non-nil owner. *)
Definition Owner_String (o : Owner) : option string :=
  match o with
  | Owner_nil => None
  | Owner_Name n => Some (Name_String n)
  | Owner_PubKey k => Some (PubKey_String k)
  | Owner_Address ad => Some (Address_String ad)
  | Owner_other _ str => Some str
  end.

Record Author : Type := mkAuthor {
  Author_Owner : Owner;      (* the embedded field [Owner] *)
  Author_Weight : N          (* [Weight uint64] *)
}.

Definition set_Owner (a : Author) (o : Owner) : Author :=
  {| Author_Owner := o; Author_Weight := Author_Weight a |}.
Definition set_Weight (a : Author) (w : N) : Author :=
  {| Author_Owner := Author_Owner a; Author_Weight := w |}.

Record StorageAuthor : Type := mkStorageAuthor {
  SA_Type : AuthorType;
  SA_DataRaw : list byte;    (* [rlp.RawValue] *)
  SA_Weight : N
}.

Definition NewAuthor (owner : Owner) (weight : N) : Author :=
  {| Author_Owner := owner; Author_Weight := weight |}.

Definition GetWeight (a : Author) : N := Author_Weight a.

(** ** [GenerateOwner] *)

Definition GenerateOwner (author : string) (at_ : AuthorType) : Owner :=
  if at_ =? AccountNameType then Owner_Name author
  else if at_ =? PubKeyType then
    let formatOwn := f author in
    Owner_PubKey (PubKey_SetBytes PubKey_new formatOwn)
  else if at_ =? AddressType then
    let formatOwn := f author in
    Owner_Address (Address_SetBytes Address_new formatOwn)
  else Owner_nil.

(** ** The storage codec *)

Context {rlp_Name : Rlp Name} {rlp_PubKey : Rlp PubKey}
        {rlp_Address : Rlp Address}.

Definition encode (a : Author) : result StorageAuthor :=
  match Author_Owner a with
  | Owner_Name aTy =>
      match rlp_EncodeToBytes aTy with
      | Err err => Err err
      | Ok value =>
          Ok {| SA_Type := AccountNameType; SA_DataRaw := value;
                SA_Weight := Author_Weight a |}
      end
  | Owner_PubKey aTy =>
      match rlp_EncodeToBytes aTy with
      | Err err => Err err
      | Ok value =>
          Ok {| SA_Type := PubKeyType; SA_DataRaw := value;
                SA_Weight := Author_Weight a |}
      end
  | Owner_Address aTy =>
      match rlp_EncodeToBytes aTy with
      | Err err => Err err
      | Ok value =>
          Ok {| SA_Type := AddressType; SA_DataRaw := value;
                SA_Weight := Author_Weight a |}
      end
  | Owner_nil | Owner_other _ _ => Err (errors_New "author encode failed")
  end.

(** [a.decode(sa)]: the receiver after the call, and the error returned. *)
Definition decode (a : Author) (sa : StorageAuthor) : Author * option error :=
  if SA_Type sa =? AccountNameType then
    match rlp_DecodeBytes (T := Name) (SA_DataRaw sa) with
    | Err err => (a, Some err)
    | Ok name =>
        (set_Weight (set_Owner a (Owner_Name name)) (SA_Weight sa), None)
    end
  else if SA_Type sa =? PubKeyType then
    match rlp_DecodeBytes (T := PubKey) (SA_DataRaw sa) with
    | Err err => (a, Some err)
    | Ok pubKey =>
        (set_Weight (set_Owner a (Owner_PubKey pubKey)) (SA_Weight sa), None)
    end
  else if SA_Type sa =? AddressType then
    match rlp_DecodeBytes (T := Address) (SA_DataRaw sa) with
    | Err err => (a, Some err)
    | Ok address =>
        (set_Weight (set_Owner a (Owner_Address address)) (SA_Weight sa), None)
    end
  else (a, Some (errors_New "author decode failed")).

End AuthorModel.

(** ** JSON documents and [encoding/json] *)

(** A JSON text is represented by the document it denotes.  A number keeps
    its literal, since the literal decides whether it fits a [uint64]. *)
#[warnings="-register-all"]
Inductive json : Type :=
| JNull
| JBool (b : bool)
| JNumber (lit : string)
| JString (s : string)
| JArray (elems : list json)
| JObject (members : list (string * json)).

(** The [[]byte] given to [json.Unmarshal]: a text that is not valid JSON,
    or a document. *)
Inductive json_bytes : Type :=
| json_invalid
| json_of (doc : json).

(** The value of the first member named [key] of an object. *)
Fixpoint members_get (key : string) (ms : list (string * json)) : option json :=
  match ms with
  | [] => None
  | (k, v) :: ms' => if String.eqb k key then Some v else members_get key ms'
  end.

Definition json_get (key : string) (doc : json) : option json :=
  match doc with
  | JObject ms => members_get key ms
  | _ => None
  end.

(** [strconv.FormatUint(n, 10)] and [strconv.ParseUint(lit, 10, 64)]. *)
Definition FormatUint (n : N) : string :=
  NilEmpty.string_of_uint (N.to_uint n).

Definition ParseUint (lit : string) : option N :=
  match lit with
  | EmptyString => None
  | _ =>
      match NilEmpty.uint_of_string lit with
      | Some d => if N.of_uint d <? 2 ^ 64 then Some (N.of_uint d) else None
      | None => None
      end
  end.

(** Member names are matched with struct fields without regard to the case
    of ASCII letters (the names ["owner"] and ["weight"] have no letter with
    a non-ASCII case variant). *)
Definition ascii_lower (c : ascii) : ascii :=
  let n := N_of_ascii c in
  if (65 <=? n) && (n <=? 90) then ascii_of_N (n + 32) else c.

Fixpoint string_lower (s : string) : string :=
  match s with
  | EmptyString => EmptyString
  | String c s' => String (ascii_lower c) (string_lower s')
  end.

Definition EqualFold (s t : string) : bool :=
  String.eqb (string_lower s) (string_lower t).

(** [AuthorJSON]: [authorType] is not exported and has no tag, [OwnerStr]
    is tagged ["owner"], [Weight] is tagged ["weight"]. *)
Record AuthorJSON : Type := mkAuthorJSON {
  AJ_authorType : AuthorType;
  AJ_OwnerStr : string;
  AJ_Weight : N
}.

(** [&AuthorJSON{}]. *)
Definition AuthorJSON_zero : AuthorJSON :=
  {| AJ_authorType := 0; AJ_OwnerStr := EmptyString; AJ_Weight := 0 |}.

(** [json.Marshal] writes a string coerced to valid UTF-8, each invalid
    byte replaced by U+FFFD: [json_valid_utf8 s] is that string.  *)
Class JsonStrings : Type := {
  json_valid_utf8 : string -> string
}.

(** [json.Marshal(&aj)] for an [AuthorJSON]: the exported fields, in the
    order of their declaration, under the names of their tags.  The field
    [authorType] is not exported: [encoding/json] leaves it out. *)
Definition json_Marshal {js : JsonStrings} (aj : AuthorJSON) : result json_bytes :=
  Ok (json_of (JObject
        [ ("owner", JString (json_valid_utf8 (AJ_OwnerStr aj)));
          ("weight", JNumber (FormatUint (AJ_Weight aj))) ])).

(** One member of an object stored into the struct: a member whose name
    matches no exported field is skipped, [null] leaves the field as it is,
    a value of the wrong kind is an error. *)
Definition unmarshal_member (aj : AuthorJSON) (key : string) (v : json)
  : result AuthorJSON :=
  if EqualFold key "owner" then
    match v with
    | JString str =>
        Ok {| AJ_authorType := AJ_authorType aj; AJ_OwnerStr := str;
              AJ_Weight := AJ_Weight aj |}
    | JNull => Ok aj
    | _ => Err (json_error "cannot unmarshal into Go struct field AuthorJSON.owner of type string")
    end
  else if EqualFold key "weight" then
    match v with
    | JNumber lit =>
        match ParseUint lit with
        | Some n =>
            Ok {| AJ_authorType := AJ_authorType aj;
                  AJ_OwnerStr := AJ_OwnerStr aj; AJ_Weight := n |}
        | None => Err (json_error "cannot unmarshal number into Go struct field AuthorJSON.weight of type uint64")
        end
    | JNull => Ok aj
    | _ => Err (json_error "cannot unmarshal into Go struct field AuthorJSON.weight of type uint64")
    end
  else Ok aj.

Fixpoint unmarshal_members (aj : AuthorJSON) (ms : list (string * json))
  : result AuthorJSON :=
  match ms with
  | [] => Ok aj
  | (key, v) :: ms' =>
      match unmarshal_member aj key v with
      | Err err => Err err
      | Ok aj' => unmarshal_members aj' ms'
      end
  end.

(** [json.Unmarshal(data, aj)] for [aj *AuthorJSON]: the struct after the
    call, or the error. *)
Definition json_Unmarshal (data : json_bytes) (aj : AuthorJSON)
  : result AuthorJSON :=
  match data with
  | json_invalid => Err (json_error "invalid character")
  | json_of JNull => Ok aj
  | json_of (JObject ms) => unmarshal_members aj ms
  | json_of _ => Err (json_error "cannot unmarshal into Go value of type types.AuthorJSON")
  end.

Section AuthorJSONCodec.

Context {ids : IdentityTypes} {js : JsonStrings}.

(** [common.HexToAddress] of the package [fractal/common]: its result, an
    address of that package, as the owner it becomes when it is assigned to
    [a.Owner]. *)
Variable common_HexToAddress : string -> Owner.

Definition MarshalJSON (a : Author) : result json_bytes :=
  match Author_Owner a with
  | Owner_Name aTy =>
      json_Marshal {| AJ_authorType := AccountNameType;
                      AJ_OwnerStr := Name_String aTy;
                      AJ_Weight := Author_Weight a |}
  | Owner_PubKey aTy =>
      json_Marshal {| AJ_authorType := PubKeyType;
                      AJ_OwnerStr := PubKey_String aTy;
                      AJ_Weight := Author_Weight a |}
  | Owner_Address aTy =>
      json_Marshal {| AJ_authorType := AddressType;
                      AJ_OwnerStr := Address_String aTy;
                      AJ_Weight := Author_Weight a |}
  | Owner_nil | Owner_other _ _ => Err (errors_New "Author marshal failed")
  end.

(** [a.UnmarshalJSON(data)]: the receiver after the call, and the error. *)
Definition UnmarshalJSON (a : Author) (data : json_bytes)
  : Author * option error :=
  match json_Unmarshal data AuthorJSON_zero with
  | Err err => (a, Some err)
  | Ok aj =>
      if AJ_authorType aj =? AccountNameType then
        (set_Weight (set_Owner a (Owner_Name (AJ_OwnerStr aj))) (AJ_Weight aj),
         None)
      else if AJ_authorType aj =? PubKeyType then
        (set_Weight (set_Owner a (Owner_PubKey (HexToPubKey (AJ_OwnerStr aj))))
           (AJ_Weight aj), None)
      else if AJ_authorType aj =? AddressType then
        (set_Weight (set_Owner a (common_HexToAddress (AJ_OwnerStr aj)))
           (AJ_Weight aj), None)
      else (a, None)
  end.

End AuthorJSONCodec.

(** ** A reference instance of the collaborators *)

Module Reference.

(** [(a << 8*k) | ...]: the number a big-endian byte string denotes. *)
Definition be_decode (bs : list byte) : N :=
  fold_left (fun acc b => acc * 256 + Byte.to_N b) bs 0.

Definition byte_of_N (n : N) : byte :=
  match Byte.of_N n with
  | Some b => b
  | None => x00
  end.

(** The big-endian bytes of [n] without leading zero bytes, at most [fuel]
    of them, put in front of [acc]. *)
Fixpoint be_encode_from (fuel : nat) (n : N) (acc : list byte) : list byte :=
  match fuel with
  | O => acc
  | S k =>
      if n =? 0 then acc
      else be_encode_from k (n / 256) (byte_of_N (n mod 256) :: acc)
  end.

Definition be_encode (n : N) : list byte := be_encode_from 8 n [].

(** Modelled from the spec: package [rlp] is not among the sources; the
    spec calls it the canonical binary codec, which writes a value as a
    length-prefixed byte string.  This is the RLP rule for a byte string:
    a single byte below 0x80 stands for itself; up to 55 bytes follow a
    header [0x80 + length]; a longer string follows a header
    [0xb7 + length of the length] and the big-endian length.
    [rlp_encode_header] writes the forms with a header. *)
Definition rlp_encode_header (bs : list byte) : result (list byte) :=
  let n := N.of_nat (List.length bs) in
  if n <? 56 then Ok (byte_of_N (128 + n) :: bs)
  else if n <? 2 ^ 64 then
    let lb := be_encode n in
    Ok (byte_of_N (183 + N.of_nat (List.length lb)) :: lb ++ bs)
  else Err (rlp_error "rlp: value too large").

Definition rlp_encode_bytes (bs : list byte) : result (list byte) :=
  match bs with
  | [b] => if Byte.to_N b <? 128 then Ok [b] else rlp_encode_header bs
  | _ => rlp_encode_header bs
  end.

(** Modelled from the spec: the decoder of the same codec.  It accepts
    exactly one byte string in canonical form: no trailing bytes, no header
    where the byte alone would do, no long form for a short string, no
    leading zero in a length. *)
Definition rlp_decode_bytes (input : list byte) : result (list byte) :=
  match input with
  | [] => Err (rlp_error "unexpected EOF")
  | b0 :: rest =>
      let t := Byte.to_N b0 in
      let avail := N.of_nat (List.length rest) in
      if t <? 128 then
        match rest with
        | [] => Ok [b0]
        | _ => Err (rlp_error "rlp: input contains more than one value")
        end
      else if t <? 184 then
        let n := t - 128 in
        if avail <? n then Err (rlp_error "rlp: value size exceeds available input length")
        else if n <? avail then Err (rlp_error "rlp: input contains more than one value")
        else
          match rest with
          | [b] =>
              if Byte.to_N b <? 128
              then Err (rlp_error "rlp: non-canonical size information")
              else Ok rest
          | _ => Ok rest
          end
      else if t <? 192 then
        let ll := N.to_nat (t - 183) in
        let lb := firstn ll rest in
        let payload := skipn ll rest in
        if Nat.ltb (List.length lb) ll then Err (rlp_error "unexpected EOF")
        else
          match lb with
          | [] => Err (rlp_error "unexpected EOF")
          | l0 :: _ =>
              if Byte.to_N l0 =? 0
              then Err (rlp_error "rlp: non-canonical integer (leading zero bytes)")
              else
                let n := be_decode lb in
                let got := N.of_nat (List.length payload) in
                if n <? 56 then Err (rlp_error "rlp: non-canonical size information")
                else if got <? n then Err (rlp_error "rlp: value size exceeds available input length")
                else if n <? got then Err (rlp_error "rlp: input contains more than one value")
                else Ok payload
          end
      else Err (rlp_error "rlp: expected input string or byte")
  end.

(** The codec of a string: that of its bytes. *)
Definition rlp_encode_string (s : string) : result (list byte) :=
  rlp_encode_bytes (list_byte_of_string s).

Definition rlp_decode_string (input : list byte) : result string :=
  match rlp_decode_bytes input with
  | Ok bs => Ok (string_of_list_byte bs)
  | Err err => Err err
  end.

(** Lower-case hexadecimal text of a byte string. *)
Definition hex_digit (n : N) : ascii :=
  if n <? 10 then ascii_of_N (48 + n) else ascii_of_N (87 + n).

Fixpoint hex_EncodeToString (bs : list byte) : string :=
  match bs with
  | [] => EmptyString
  | b :: bs' =>
      String (hex_digit (Byte.to_N b / 16))
        (String (hex_digit (Byte.to_N b mod 16)) (hex_EncodeToString bs'))
  end.

(** Modelled from the spec: the identity types [PubKey] and [Address] are
    declared outside [author.go]; the data model gives them as
    [PubKey(bytes)] and [Address(bytes)], built from a byte sequence, with
    hexadecimal text as their string form.  [Name] renders as itself. *)
#[export] Instance identities : IdentityTypes := {|
  PubKey := list byte;
  Address := list byte;
  Name_String := fun n => n;
  PubKey_new := [];
  PubKey_SetBytes := fun _ b => b;
  PubKey_String := fun k => "0x" ++ hex_EncodeToString k;
  HexToPubKey := fun s => f s;
  Address_new := [];
  Address_SetBytes := fun _ b => b;
  Address_String := fun ad => "0x" ++ hex_EncodeToString ad
|}.

#[export] Instance rlp_Name : Rlp Name := {|
  rlp_EncodeToBytes := rlp_encode_string;
  rlp_DecodeBytes := rlp_decode_string
|}.

#[export] Instance rlp_byte_string : Rlp (list byte) := {|
  rlp_EncodeToBytes := rlp_encode_bytes;
  rlp_DecodeBytes := rlp_decode_bytes
|}.

(** Modelled from the spec: [common.HexToAddress], the hex-to-address
    parser, as the owner it yields. *)
Definition HexToAddress (s : string) : Owner := Owner_Address (f s).

End Reference.


(** ** [EncodeRLP] and [DecodeRLP] *)

Section AuthorRLPStream.

Context {ids : IdentityTypes}.
Context {rlp_Name : Rlp Name} {rlp_PubKey : Rlp PubKey}
        {rlp_Address : Rlp Address}.

(** The collaborators of the two methods, of package [rlp] and [io]:
    - [Writer] is the state of an [io.Writer], and [rlp_Encode w sa] is
      [rlp.Encode(w, sa)]: the writer after the call and the error;
    - [Stream] is the state of an [*rlp.Stream], and [Stream_Decode s] is
      [s.Decode(storageAuthor)] for a fresh [storageAuthor]: the stream
      after the call, and the record read or the error. *)
Variable Writer : Type.
Variable rlp_Encode : Writer -> StorageAuthor -> Writer * option error.
Variable Stream : Type.
Variable Stream_Decode : Stream -> Stream * result StorageAuthor.

(** [a.EncodeRLP(w)]: the writer after the call, and the error. *)
Definition EncodeRLP (a : Author) (w : Writer) : Writer * option error :=
  match encode a with
  | Err err => (w, Some err)
  | Ok storageAuthor => rlp_Encode w storageAuthor
  end.

(** [a.DecodeRLP(s)]: the receiver and the stream after the call, and the
    error. *)
Definition DecodeRLP (a : Author) (s : Stream)
  : Author * Stream * option error :=
  let '(s', read) := Stream_Decode s in
  match read with
  | Err err => (a, s', Some err)
  | Ok storageAuthor =>
      let '(a', err) := decode a storageAuthor in (a', s', err)
  end.

End AuthorRLPStream.

(** ** The table [AuthorTypeToString] *)

(** The map literal, as the list of its entries; [map_lookup m k] is the
    value and the presence flag of [m[k]]: [None] for an absent key. *)
Definition AuthorTypeToString : list (AuthorType * string) :=
  [ (AccountNameType, "account");
    (PubKeyType, "pubKey");
    (AddressType, "address") ].

Fixpoint map_lookup (m : list (AuthorType * string)) (k : AuthorType)
  : option string :=
  match m with
  | [] => None
  | (k', v) :: m' => if k =? k' then Some v else map_lookup m' k
  end.

(** ** What [json.Marshal] does to a string that is not valid UTF-8 *)

Module Utf8.

Definition in_range (lo hi : N) (c : ascii) : bool :=
  (lo <=? N_of_ascii c) && (N_of_ascii c <=? hi).

(** [utf8.DecodeRuneInString]: the number of bytes of the encoding of a
    code point at the head of [s]; 0 when there is none (the function then
    returns [RuneError] and the width 1).  The first byte gives the length
    and the range of the second byte; the further bytes are continuation
    bytes, 0x80 to 0xbf. *)
Definition head_size (s : string) : nat :=
  match s with
  | EmptyString => 0
  | String b0 rest =>
      let n := N_of_ascii b0 in
      if n <? 128 then 1
      else if n <? 194 then 0
      else if n <? 224 then
        match rest with
        | String b1 _ => if in_range 128 191 b1 then 2 else 0
        | _ => 0
        end
      else if n <? 240 then
        match rest with
        | String b1 (String b2 _) =>
            let lo := if n =? 224 then 160 else 128 in
            let hi := if n =? 237 then 159 else 191 in
            if in_range lo hi b1 && in_range 128 191 b2 then 3 else 0
        | _ => 0
        end
      else if n <? 245 then
        match rest with
        | String b1 (String b2 (String b3 _)) =>
            let lo := if n =? 240 then 144 else 128 in
            let hi := if n =? 244 then 143 else 191 in
            if in_range lo hi b1 && in_range 128 191 b2
               && in_range 128 191 b3
            then 4 else 0
        | _ => 0
        end
      else 0
  end.

(** U+FFFD in UTF-8. *)
Definition replacement : string :=
  String (ascii_of_N 239) (String (ascii_of_N 191)
    (String (ascii_of_N 189) EmptyString)).

(** The string with every byte that starts no encoding replaced by
    U+FFFD; [skip] bytes of an encoding already accepted are copied. *)
Fixpoint coerce_from (skip : nat) (s : string) : string :=
  match s with
  | EmptyString => EmptyString
  | String c s' =>
      match skip with
      | S k => String c (coerce_from k s')
      | O =>
          match head_size s with
          | O => replacement ++ coerce_from 0 s'
          | S k => String c (coerce_from k s')
          end
      end
  end.

#[export] Instance json_strings : JsonStrings := {|
  json_valid_utf8 := coerce_from 0
|}.

End Utf8.

(** ** A reference envelope *)

Module Envelope.
Import Reference.

(** The [width] low bytes of [n], big-endian, in front of [acc]. *)
Fixpoint be_fixed (width : nat) (n : N) (acc : list byte) : list byte :=
  match width with
  | O => acc
  | S k => be_fixed k (n / 256) (byte_of_N (n mod 256) :: acc)
  end.

(** Modelled from the spec: the envelope of a [StorageAuthor], which
    package [rlp] writes, is given as the tag (fixed width), the payload
    bytes prefixed by their length, and the weight (fixed width).  Here the
    tag takes one byte, the length and the weight eight bytes each. *)
Definition envelope (sa : StorageAuthor) : list byte :=
  (be_fixed 1 (SA_Type sa) []
   ++ be_fixed 8 (N.of_nat (List.length (SA_DataRaw sa))) []
   ++ SA_DataRaw sa
   ++ be_fixed 8 (SA_Weight sa) [])%list.

(** Modelled from the spec: [rlp.Encode] to a writer that keeps the bytes
    written. *)
Definition Encode (w : list byte) (sa : StorageAuthor)
  : list byte * option error :=
  ((w ++ envelope sa)%list, None).

(** Modelled from the spec: [Stream.Decode] on a stream of the bytes still
    to be read. *)
Definition Decode (s : list byte) : list byte * result StorageAuthor :=
  match s with
  | tag :: s1 =>
      let len := N.to_nat (be_decode (firstn 8 s1)) in
      let s2 := skipn 8 s1 in
      let payload := firstn len s2 in
      let s3 := skipn len s2 in
      let weight := firstn 8 s3 in
      if Nat.ltb (List.length weight) 8
      then (s, Err (rlp_error "unexpected EOF"))
      else (skipn 8 s3,
            Ok {| SA_Type := Byte.to_N tag; SA_DataRaw := payload;
                  SA_Weight := be_decode weight |})
  | [] => (s, Err (rlp_error "EOF"))
  end.

End Envelope.

(** ** Notions used to state the properties *)

(** [sep] occurs somewhere in [s]. *)
Fixpoint occurs (sep s : string) : bool :=
  match s with
  | EmptyString => String.prefix sep s
  | String _ s' => String.prefix sep s || occurs sep s'
  end.

(** The part of [s] in front of the first occurrence of [sep]; all of [s]
    when there is none. *)
Fixpoint before_first (sep s : string) : string :=
  match s with
  | EmptyString => EmptyString
  | String c s' =>
      if String.prefix sep s then EmptyString
      else String c (before_first sep s')
  end.

(** The string that the members of an object leave in the field
    [OwnerStr], starting from [start]: that of the last member named
    ["owner"], in any case of the letters, whose value is a string. *)
Fixpoint owner_of_members (start : string) (ms : list (string * json)) : string :=
  match ms with
  | [] => start
  | (key, JString str) :: ms' =>
      owner_of_members (if EqualFold key "owner" then str else start) ms'
  | _ :: ms' => owner_of_members start ms'
  end.

(** * Properties *)

(** ** The storage codec *)

Section StorageCodec.

Context {ids : IdentityTypes}.
Context {rlp_Name : Rlp Name} {rlp_PubKey : Rlp PubKey}
        {rlp_Address : Rlp Address}.

Lemma AuthorType_cases (t : AuthorType) :
  t = AccountNameType \/ t = PubKeyType \/ t = AddressType \/
  ((t =? AccountNameType) = false /\ (t =? PubKeyType) = false /\
   (t =? AddressType) = false).
Proof.
  destruct (N.eqb_spec t AccountNameType); [now left |].
  destruct (N.eqb_spec t PubKeyType); [now right; left |].
  destruct (N.eqb_spec t AddressType); [now right; right; left |].
  right; right; right; repeat split; reflexivity.
Qed.

Lemma set_both (a : Author) (o : Owner) (w : N) :
  set_Weight (set_Owner a o) w = mkAuthor o w.
Proof. reflexivity. Qed.

(** [encode] succeeds exactly on the known variants whose payload the
    codec encodes, and then writes the tag of the variant, the encoded
    payload and the weight. *)
Lemma encode_Ok_inv (a : Author) (sa : StorageAuthor) :
  encode a = Ok sa ->
  variant_tag (Author_Owner a) = Some (SA_Type sa) /\
  SA_Weight sa = Author_Weight a /\
  match Author_Owner a with
  | Owner_Name n => rlp_EncodeToBytes n = Ok (SA_DataRaw sa)
  | Owner_PubKey k => rlp_EncodeToBytes k = Ok (SA_DataRaw sa)
  | Owner_Address ad => rlp_EncodeToBytes ad = Ok (SA_DataRaw sa)
  | _ => False
  end.
Proof.
  unfold encode.
  destruct (Author_Owner a) as [| n | k | ad | ty str]; try discriminate.
  - destruct (rlp_EncodeToBytes n) eqn:E; [| discriminate].
    intros [= <-]; simpl; auto.
  - destruct (rlp_EncodeToBytes k) eqn:E; [| discriminate].
    intros [= <-]; simpl; auto.
  - destruct (rlp_EncodeToBytes ad) eqn:E; [| discriminate].
    intros [= <-]; simpl; auto.
Qed.

Lemma encode_succeeds (a : Author) :
  match Author_Owner a with
  | Owner_Name n => exists b, rlp_EncodeToBytes n = Ok b
  | Owner_PubKey k => exists b, rlp_EncodeToBytes k = Ok b
  | Owner_Address ad => exists b, rlp_EncodeToBytes ad = Ok b
  | _ => False
  end ->
  exists sa, encode a = Ok sa.
Proof.
  unfold encode.
  destruct (Author_Owner a) as [| n | k | ad | ty str]; try contradiction;
    intros [b ->]; eauto.
Qed.

(** C1.  Binary round trip.  With a payload codec that gives back what it
    encoded, for every author [a] whose owner is a [Name], a [PubKey] or
    an [Address], and of any weight: decoding the [StorageAuthor] that
    [encode] produced for [a] succeeds and leaves in the receiver, whatever
    it held, an author equal to [a]: the same variant, the same payload,
    the same weight. *)
Theorem decode_encode_round_trip
    {lossless_Name : RlpLossless Name}
    {lossless_PubKey : RlpLossless PubKey}
    {lossless_Address : RlpLossless Address}
    (a receiver : Author) (sa : StorageAuthor) :
  known_variant (Author_Owner a) = true ->
  encode a = Ok sa ->
  decode receiver sa = (a, None).
Proof.
  intros _ Henc.
  destruct (encode_Ok_inv _ Henc) as (Htag & Hw & Hpayload).
  destruct a as [o w]; simpl in *.
  unfold decode.
  destruct o as [| n | k | ad | ty str]; try contradiction;
    simpl in Htag; injection Htag as <-; simpl;
    rewrite (rlp_decode_encode _ Hpayload), set_both, Hw; reflexivity.
Qed.

(** C3.  Unknown tag.  For every [StorageAuthor] whose tag is none of 0, 1
    and 2, [decode] returns the error "author decode failed"; it does not
    succeed. *)
Theorem decode_unknown_tag (a : Author) (sa : StorageAuthor) :
  SA_Type sa <> AccountNameType ->
  SA_Type sa <> PubKeyType ->
  SA_Type sa <> AddressType ->
  decode a sa = (a, Some (errors_New "author decode failed")).
Proof.
  intros H0 H1 H2. unfold decode.
  destruct (AuthorType_cases (SA_Type sa)) as [E | [E | [E | (E0 & E1 & E2)]]];
    try contradiction.
  now rewrite E0, E1, E2.
Qed.

(** C4.  Unrecognized owner.  For every author whose owner is not a
    [Name], a [PubKey] or an [Address] (a nil owner, or a value of any
    other type that implements [Owner]), [encode] returns the error
    "author encode failed" and no [StorageAuthor]. *)
Theorem encode_unrecognized_owner (a : Author) :
  known_variant (Author_Owner a) = false ->
  encode a = Err (errors_New "author encode failed").
Proof.
  unfold encode.
  destruct (Author_Owner a); simpl; intros H; try discriminate; reflexivity.
Qed.

(** C10.  Whenever [decode] returns an error, for an unknown tag or from
    the payload decoder, the receiver is as it was: neither its owner nor
    its weight has been assigned. *)
Theorem decode_error_keeps_receiver
    (a a' : Author) (sa : StorageAuthor) (err : error) :
  decode a sa = (a', Some err) ->
  a' = a.
Proof.
  unfold decode.
  destruct (SA_Type sa =? AccountNameType).
  { destruct (rlp_DecodeBytes (T := Name) (SA_DataRaw sa));
      intros [= <-]; congruence || reflexivity. }
  destruct (SA_Type sa =? PubKeyType).
  { destruct (rlp_DecodeBytes (T := PubKey) (SA_DataRaw sa));
      intros [= <-]; congruence || reflexivity. }
  destruct (SA_Type sa =? AddressType).
  { destruct (rlp_DecodeBytes (T := Address) (SA_DataRaw sa));
      intros [= <-]; congruence || reflexivity. }
  intros [= <-]; reflexivity.
Qed.

(** A successful [decode] writes the variant that goes with the tag. *)
Lemma decode_Ok_tag (a a' : Author) (sa : StorageAuthor) :
  decode a sa = (a', None) ->
  variant_tag (Author_Owner a') = Some (SA_Type sa) /\
  Author_Weight a' = SA_Weight sa.
Proof.
  unfold decode.
  destruct (N.eqb_spec (SA_Type sa) AccountNameType) as [-> |].
  { destruct (rlp_DecodeBytes (T := Name) (SA_DataRaw sa));
      intros [= <-]; simpl; auto. }
  destruct (N.eqb_spec (SA_Type sa) PubKeyType) as [-> |].
  { destruct (rlp_DecodeBytes (T := PubKey) (SA_DataRaw sa));
      intros [= <-]; simpl; auto. }
  destruct (N.eqb_spec (SA_Type sa) AddressType) as [-> |].
  { destruct (rlp_DecodeBytes (T := Address) (SA_DataRaw sa));
      intros [= <-]; simpl; auto. }
  discriminate.
Qed.

End StorageCodec.

(** ** The owner factory *)

Section Factory.

Context {ids : IdentityTypes}.

Lemma prefix_0x_inv (s : string) :
  String.prefix "0x" s = true -> exists s', s = "0x" ++ s'.
Proof.
  destruct s as [| a [| b s']]; cbn [String.prefix]; try discriminate.
  - destruct (ascii_dec "0" a); cbn [String.prefix]; discriminate.
  - destruct (ascii_dec "0" a) as [Ea |]; [subst a | discriminate].
    cbn [String.prefix].
    destruct (ascii_dec "x" b) as [Eb |]; [subst b | discriminate].
    intros _. now exists s'.
Qed.

Lemma append_assoc_char (cur : string) (c : ascii) (s : string) :
  (cur ++ String c EmptyString) ++ s = cur ++ String c s.
Proof. induction cur as [| d cur IH]; simpl; [| rewrite IH]; reflexivity. Qed.

Lemma append_empty_r (s : string) : s ++ EmptyString = s.
Proof. induction s as [| c s IH]; simpl; [| rewrite IH]; reflexivity. Qed.

(** The first piece of a split is what stands in front of the first
    occurrence of the separator. *)
Lemma hd_Split_from (sep s cur : string) :
  hd EmptyString (Split_from sep 0 cur s) = cur ++ before_first sep s.
Proof.
  revert cur. induction s as [| c s IH]; intros cur.
  - simpl. now rewrite append_empty_r.
  - cbn [Split_from before_first].
    destruct (String.prefix sep (String c s)).
    + simpl. now rewrite append_empty_r.
    + rewrite IH. apply append_assoc_char.
Qed.

Lemma before_first_no_occurrence (sep s : string) :
  occurs sep s = false -> before_first sep s = s.
Proof.
  induction s as [| c s IH]; [reflexivity |].
  cbn [occurs before_first]. intros H.
  apply orb_false_iff in H as [-> H]. now rewrite IH.
Qed.

Lemma prefix_0x_append (s : string) : String.prefix "0x" ("0x" ++ s) = true.
Proof. destruct s; reflexivity. Qed.

Lemma Split_0x (s : string) :
  strings_Split ("0x" ++ s) "0x"
  = EmptyString :: Split_from "0x" 0 EmptyString s.
Proof.
  unfold strings_Split.
  change ("0x" ++ s) with (String "0" (String "x" s)).
  cbn [Split_from].
  change (String "0" (String "x" s)) with ("0x" ++ s).
  now rewrite prefix_0x_append.
Qed.

(** A split has at least one piece. *)
Lemma Split_from_not_nil (sep s cur : string) (skip : nat) :
  Split_from sep skip cur s <> [].
Proof.
  revert skip cur. induction s as [| c s IH]; intros skip cur.
  - discriminate.
  - cbn [Split_from]. destruct skip as [| k]; [| apply IH].
    destruct (String.prefix sep (String c s)); [discriminate | apply IH].
Qed.

(** X14.  With the prefix present, [ds[1]] exists: the index that
    [GenerateOwner] takes of the result of [strings.Split] is in range,
    so that the factory does not panic on it. *)
Lemma Split_0x_prefix_index1 (s : string) :
  strings_HasPrefix s "0x" = true ->
  exists piece, nth_error (strings_Split s "0x") 1 = Some piece.
Proof.
  intros H. apply prefix_0x_inv in H as [s' ->]. rewrite Split_0x.
  cbn [nth_error]. destruct (Split_from "0x" 0 "" s') eqn:E.
  - now apply Split_from_not_nil in E.
  - eauto.
Qed.

(** An input without the prefix reaches the decoder as it is. *)
Lemma formatStr_no_prefix (s : string) :
  strings_HasPrefix s "0x" = false -> formatStr s = s.
Proof. unfold formatStr. now intros ->. Qed.

(** After the prefix, the text reaches the decoder up to the next ["0x"]
    only. *)
Lemma formatStr_0x (s : string) :
  formatStr ("0x" ++ s) = before_first "0x" s.
Proof.
  unfold formatStr, strings_HasPrefix.
  rewrite prefix_0x_append, Split_0x.
  change (nth 1 (EmptyString :: ?l) EmptyString) with (nth 0 l EmptyString).
  transitivity (hd EmptyString (Split_from "0x" 0 EmptyString s)).
  - now destruct (Split_from "0x" 0 EmptyString s).
  - apply hd_Split_from.
Qed.

Lemma formatStr_0x_clean (s : string) :
  occurs "0x" s = false -> formatStr ("0x" ++ s) = s.
Proof. intros H. rewrite formatStr_0x. now apply before_first_no_occurrence. Qed.

Lemma occurs_prefix (sep s : string) :
  occurs sep s = false -> String.prefix sep s = false.
Proof.
  destruct s; simpl; [auto |]. intros H. now apply orb_false_iff in H.
Qed.

(** C6.  The text that reaches the hex decoder for the input
    ["0xAA0xBB"] is ["AA"]: besides the leading ["0x"], the second ["0x"]
    and all that follows it are removed, where the claim has the text after
    the prefix reach the decoder unaltered. *)
Theorem formatStr_cut_at_second_0x :
  formatStr "0xAA0xBB" = "AA" /\ formatStr "0xAA0xBB" <> "AA0xBB".
Proof. split; [reflexivity | discriminate]. Qed.

(** Hex decoding stops at the first malformed pair: the text is a
    well-formed part, which decodes to the bytes returned, followed by a
    rest that is empty when there is no error and of which otherwise
    nothing is decoded. *)
Lemma hex_DecodeString_split (s : string) :
  exists good bad,
    s = good ++ bad /\
    hex_DecodeString good = (fst (hex_DecodeString s), None) /\
    fst (hex_DecodeString bad) = [] /\
    snd (hex_DecodeString bad) = snd (hex_DecodeString s).
Proof.
  enough (H : forall n s, (String.length s <= n)%nat ->
            exists good bad,
              s = good ++ bad /\
              hex_DecodeString good = (fst (hex_DecodeString s), None) /\
              fst (hex_DecodeString bad) = [] /\
              snd (hex_DecodeString bad) = snd (hex_DecodeString s))
    by (apply (H (String.length s)); lia).
  clear s. induction n as [| n IH]; intros s Hlen.
  - destruct s; [| simpl in Hlen; lia].
    exists EmptyString, EmptyString. repeat split.
  - destruct s as [| p [| q rest]].
    + exists EmptyString, EmptyString. repeat split.
    + exists EmptyString, (String p EmptyString).
      simpl. destruct (fromHexChar p); repeat split.
    + cbn [hex_DecodeString].
      destruct (fromHexChar p) as [a |] eqn:Ep.
      2:{ exists EmptyString, (String p (String q rest)).
          cbn [hex_DecodeString]. rewrite Ep. repeat split. }
      destruct (fromHexChar q) as [b |] eqn:Eq.
      2:{ exists EmptyString, (String p (String q rest)).
          cbn [hex_DecodeString]. rewrite Ep, Eq. repeat split. }
      destruct (IH rest) as (good & bad & Hs & Hgood & Hbad1 & Hbad2).
      { simpl in Hlen. lia. }
      exists (String p (String q good)), bad.
      destruct (hex_DecodeString rest) as [d err] eqn:Er. simpl in *.
      rewrite Ep, Eq, Hgood. subst rest. repeat split; assumption.
Qed.

(** C7, the claim as stated fails: hex decoding of ["AAZZ"] fails at the
    byte ['Z'], and the byte sequence handed on is the one byte 0xaa that
    was decoded before, not the empty sequence. *)
Lemma hex_failure_keeps_decoded_bytes :
  strings_HasPrefix "AAZZ" "0x" = false /\
  hex_DecodeString (formatStr "AAZZ")
    = ([xaa], Some (hex_InvalidByteError "Z")) /\
  f "AAZZ" <> [].
Proof. repeat split; discriminate. Qed.

(** C7, amended.  With type [PubKeyType] or [AddressType], for every
    input on whose prefix-stripped text hex decoding fails, the byte
    sequence used to construct the identity value is the one decoded from
    the well-formed pairs of digits in front of the first malformed one
    (of the rest nothing is decoded), and the factory still returns an
    owner built from that byte sequence. *)
Theorem GenerateOwner_on_bad_hex (s : string) (t : AuthorType) :
  t = PubKeyType \/ t = AddressType ->
  snd (hex_DecodeString (formatStr s)) <> None ->
  (exists good bad,
      formatStr s = good ++ bad /\
      hex_DecodeString good = (f s, None) /\
      fst (hex_DecodeString bad) = [] /\
      snd (hex_DecodeString bad) <> None) /\
  GenerateOwner s t
  = (if t =? PubKeyType
     then Owner_PubKey (PubKey_SetBytes PubKey_new (f s))
     else Owner_Address (Address_SetBytes Address_new (f s))).
Proof.
  intros Ht Hfail. split.
  - destruct (hex_DecodeString_split (formatStr s))
      as (good & bad & Hs & Hgood & Hbad1 & Hbad2).
    exists good, bad. repeat split; try assumption.
    now rewrite Hbad2.
  - destruct Ht as [-> | ->]; reflexivity.
Qed.

(** The factory never fails for these two types, whatever the text. *)
Lemma GenerateOwner_hex_known (s : string) (t : AuthorType) :
  t = PubKeyType \/ t = AddressType ->
  known_variant (GenerateOwner s t) = true /\
  variant_tag (GenerateOwner s t) = Some t.
Proof. intros [-> | ->]; split; reflexivity. Qed.

(** The example of the spec: with and without the prefix, the same owner. *)
Lemma GenerateOwner_0xAABB :
  GenerateOwner "0xAABB" PubKeyType = GenerateOwner "AABB" PubKeyType.
Proof. reflexivity. Qed.

(** X22.  The prefix makes no difference when no further ["0x"] follows:
    for a text [s] in which ["0x"] does not occur and every type but
    [AccountNameType], the owner made of ["0x" ++ s] is the one made of
    [s]. *)
Lemma GenerateOwner_0x_clean (s : string) (t : AuthorType) :
  t <> AccountNameType ->
  occurs "0x" s = false ->
  GenerateOwner ("0x" ++ s) t = GenerateOwner s t.
Proof.
  intros Ht Hs. unfold GenerateOwner, f.
  rewrite (formatStr_0x_clean _ Hs).
  rewrite (formatStr_no_prefix s) by (now apply occurs_prefix).
  destruct (N.eqb_spec t AccountNameType); [contradiction | reflexivity].
Qed.

(** C8.  For [s = "A0xBB"], which does not begin with ["0x"], the owners
    made from ["0x" ++ s] and from [s] are built from different byte
    sequences: from none at all (the text is cut at the second ["0x"], and
    the lone digit left is no pair), and from the byte 0xa0. *)
Theorem GenerateOwner_0x_prefix_differs :
  strings_HasPrefix "A0xBB" "0x" = false /\
  GenerateOwner ("0x" ++ "A0xBB") PubKeyType
    = Owner_PubKey (PubKey_SetBytes PubKey_new []) /\
  GenerateOwner "A0xBB" PubKeyType
    = Owner_PubKey (PubKey_SetBytes PubKey_new [xa0]) /\
  f ("0x" ++ "A0xBB") <> f "A0xBB".
Proof. repeat split; discriminate. Qed.

End Factory.

(** ** The JSON codec *)

Section JSONCodec.

Context {ids : IdentityTypes} {js : JsonStrings}.
Variable common_HexToAddress : string -> Owner.

(** [json.Unmarshal] never assigns the field [authorType]. *)
Lemma unmarshal_member_authorType (aj aj' : AuthorJSON) key v :
  unmarshal_member aj key v = Ok aj' ->
  AJ_authorType aj' = AJ_authorType aj.
Proof.
  unfold unmarshal_member.
  destruct (EqualFold key "owner").
  { destruct v; try discriminate; now intros [= <-]. }
  destruct (EqualFold key "weight").
  { destruct v; try discriminate; try (now intros [= <-]).
    destruct (ParseUint lit); try discriminate. now intros [= <-]. }
  now intros [= <-].
Qed.

Lemma unmarshal_members_authorType ms : forall aj aj',
  unmarshal_members aj ms = Ok aj' ->
  AJ_authorType aj' = AJ_authorType aj.
Proof.
  induction ms as [| [key v] ms IH]; intros aj aj'; cbn [unmarshal_members].
  - now intros [= <-].
  - destruct (unmarshal_member aj key v) as [aj1 |] eqn:E; [| discriminate].
    intros H. rewrite (IH _ _ H). now apply unmarshal_member_authorType in E.
Qed.

Lemma json_Unmarshal_authorType data aj aj' :
  json_Unmarshal data aj = Ok aj' ->
  AJ_authorType aj' = AJ_authorType aj.
Proof.
  destruct data as [| []]; cbn [json_Unmarshal]; try discriminate.
  - now intros [= <-].
  - apply unmarshal_members_authorType.
Qed.

(** The field [OwnerStr] ends up holding the last string given under the
    name ["owner"]. *)
Lemma unmarshal_members_OwnerStr ms : forall aj aj',
  unmarshal_members aj ms = Ok aj' ->
  AJ_OwnerStr aj' = owner_of_members (AJ_OwnerStr aj) ms.
Proof.
  induction ms as [| [key v] ms IH]; intros aj aj';
    cbn [unmarshal_members owner_of_members].
  - now intros [= <-].
  - destruct (unmarshal_member aj key v) as [aj1 |] eqn:E; [| discriminate].
    intros H. rewrite (IH _ _ H). clear IH H.
    unfold unmarshal_member in E.
    destruct (EqualFold key "owner").
    { destruct v; try discriminate; now injection E as <-. }
    destruct (EqualFold key "weight").
    { destruct v; try discriminate; try (now injection E as <-).
      destruct (ParseUint lit); try discriminate. now injection E as <-. }
    injection E as <-. now destruct v.
Qed.

(** C9.  For every input that [UnmarshalJSON] accepts, the owner left in
    the receiver is a [Name], made of the string that [json.Unmarshal]
    stored in the field [OwnerStr] (for an object, the last string under
    the name ["owner"]), and the weight is that of the field [Weight]:
    the field [authorType] is not assigned by [json.Unmarshal], so the
    switch takes the branch of [AccountNameType]. *)
Theorem UnmarshalJSON_always_Name (a a' : Author) (data : json_bytes) :
  UnmarshalJSON common_HexToAddress a data = (a', None) ->
  exists aj,
    json_Unmarshal data AuthorJSON_zero = Ok aj /\
    AJ_authorType aj = AccountNameType /\
    a' = mkAuthor (Owner_Name (AJ_OwnerStr aj)) (AJ_Weight aj) /\
    (forall ms, data = json_of (JObject ms) ->
                AJ_OwnerStr aj = owner_of_members EmptyString ms).
Proof.
  unfold UnmarshalJSON.
  destruct (json_Unmarshal data AuthorJSON_zero) as [aj |] eqn:E;
    [| discriminate].
  pose proof (json_Unmarshal_authorType _ _ E) as Hty.
  change (AJ_authorType AuthorJSON_zero) with AccountNameType in Hty.
  rewrite Hty. cbn [N.eqb AccountNameType]. intros [= <-].
  exists aj. repeat split; try assumption.
  intros ms ->. cbn [json_Unmarshal] in E.
  now apply unmarshal_members_OwnerStr in E.
Qed.

Lemma FormatUint_not_empty (n : N) : FormatUint n <> EmptyString.
Proof.
  unfold FormatUint. intros H.
  assert (Hnil : N.to_uint n = Decimal.Nil).
  { destruct (N.to_uint n); simpl in H; try discriminate; reflexivity. }
  pose proof (Unsigned.of_to n) as Hn. rewrite Hnil in Hn.
  subst n. discriminate.
Qed.

Lemma ParseUint_FormatUint (n : N) :
  n < 2 ^ 64 -> ParseUint (FormatUint n) = Some n.
Proof.
  intros Hn. unfold ParseUint.
  destruct (FormatUint n) as [| c lit] eqn:E.
  { now apply FormatUint_not_empty in E. }
  rewrite <- E. unfold FormatUint.
  rewrite NilEmpty.usu, Unsigned.of_to.
  now apply N.ltb_lt in Hn as ->.
Qed.

(** The struct that [json.Unmarshal] reads back from what [json.Marshal]
    wrote: the string and the weight, and no type. *)
Lemma json_Unmarshal_Marshal (aj : AuthorJSON) :
  AJ_Weight aj < 2 ^ 64 ->
  exists data,
    json_Marshal aj = Ok data /\
    json_Unmarshal data AuthorJSON_zero
    = Ok {| AJ_authorType := AccountNameType;
            AJ_OwnerStr := json_valid_utf8 (AJ_OwnerStr aj);
            AJ_Weight := AJ_Weight aj |}.
Proof.
  intros Hw. eexists. split; [reflexivity |].
  cbn [json_Unmarshal unmarshal_members]. unfold unmarshal_member.
  change (EqualFold "owner" "owner") with true.
  change (EqualFold "weight" "owner") with false.
  change (EqualFold "weight" "weight") with true.
  cbv iota. cbn [AJ_authorType AJ_OwnerStr AJ_Weight AuthorJSON_zero].
  now rewrite (ParseUint_FormatUint Hw).
Qed.

(** What [MarshalJSON] returns: for a known variant, the object of the two
    members ["owner"] and ["weight"]; otherwise the error. *)
Lemma MarshalJSON_spec (a : Author) :
  match Owner_String (Author_Owner a), known_variant (Author_Owner a) with
  | Some str, true =>
      MarshalJSON a
      = Ok (json_of (JObject
              [ ("owner", JString (json_valid_utf8 str));
                ("weight", JNumber (FormatUint (Author_Weight a))) ]))
  | _, _ => MarshalJSON a = Err (errors_New "Author marshal failed")
  end.
Proof. unfold MarshalJSON. destruct (Author_Owner a); reflexivity. Qed.

(** C5.  Whatever the author, the document that [MarshalJSON] returns is
    an object of exactly the two members ["owner"] and ["weight"]: it has
    no member ["type"], and the tag of the variant is not in it. *)
Theorem MarshalJSON_has_no_type (a : Author) :
  match MarshalJSON a with
  | Ok (json_of doc) =>
      json_get "type" doc = None /\
      exists str,
        Owner_String (Author_Owner a) = Some str /\
        doc = JObject [ ("owner", JString (json_valid_utf8 str));
                        ("weight", JNumber (FormatUint (Author_Weight a))) ]
  | Ok json_invalid => False
  | Err err =>
      known_variant (Author_Owner a) = false /\
      err = errors_New "Author marshal failed"
  end.
Proof.
  unfold MarshalJSON.
  destruct (Author_Owner a); cbn; (split; [reflexivity | eauto]).
Qed.

(** The JSON round trip keeps the string and the weight, and makes a
    [Name] of every owner. *)
Lemma UnmarshalJSON_MarshalJSON (a receiver : Author) (data : json_bytes) :
  Author_Weight a < 2 ^ 64 ->
  MarshalJSON a = Ok data ->
  exists str,
    Owner_String (Author_Owner a) = Some str /\
    UnmarshalJSON common_HexToAddress receiver data
    = (mkAuthor (Owner_Name (json_valid_utf8 str)) (Author_Weight a), None).
Proof.
  intros Hw Hm. unfold MarshalJSON in Hm.
  destruct a as [o w]; cbn [Author_Owner Author_Weight] in *.
  destruct o as [| n | k | ad | ty s]; try discriminate;
    match type of Hm with
    | json_Marshal ?aj = _ =>
        destruct (@json_Unmarshal_Marshal aj Hw) as (d & Hd & Hu)
    end;
    rewrite Hd in Hm; injection Hm as <-;
    (eexists; split; [reflexivity |]);
    unfold UnmarshalJSON; rewrite Hu; reflexivity.
Qed.

(** C2.  The author of the zero public key and weight 1, marshalled and
    unmarshalled again, is an author whose owner is a [Name], the string
    form of the key, and not a [PubKey]: the variant is lost. *)
Theorem JSON_round_trip_loses_variant (receiver : Author) :
  exists data,
    MarshalJSON (mkAuthor (Owner_PubKey PubKey_new) 1) = Ok data /\
    UnmarshalJSON common_HexToAddress receiver data
    = (mkAuthor (Owner_Name (json_valid_utf8 (PubKey_String PubKey_new))) 1,
       None) /\
    variant_tag (Author_Owner (fst (UnmarshalJSON common_HexToAddress receiver data)))
    <> variant_tag (Owner_PubKey PubKey_new).
Proof.
  eexists. split; [reflexivity |].
  assert (H : forall s,
    UnmarshalJSON common_HexToAddress receiver
      (json_of (JObject [("owner", JString s); ("weight", JNumber (FormatUint 1))]))
    = (mkAuthor (Owner_Name s) 1, None)) by reflexivity.
  cbn [Author_Weight]. rewrite H. split; [reflexivity | discriminate].
Qed.

End JSONCodec.

(** ** The reference instance is lossless *)

Module ReferenceFacts.
Import Reference.

Lemma to_N_byte_of_N (n : N) : n < 256 -> Byte.to_N (byte_of_N n) = n.
Proof.
  intros Hn. unfold byte_of_N.
  destruct (Byte.of_N n) as [b |] eqn:E.
  - now apply Byte.to_of_N.
  - apply Byte.of_N_None_iff in E. lia.
Qed.

Lemma be_decode_from (l : list byte) : forall a,
  fold_left (fun acc b => acc * 256 + Byte.to_N b) l a
  = a * 256 ^ N.of_nat (List.length l) + be_decode l.
Proof.
  unfold be_decode.
  induction l as [| b l IH]; intros a; cbn [fold_left List.length].
  - rewrite N.pow_0_r. lia.
  - rewrite IH, (IH (0 * 256 + Byte.to_N b)).
    rewrite Nat2N.inj_succ, N.pow_succ_r'. lia.
Qed.

Lemma be_decode_cons (b : byte) (l : list byte) :
  be_decode (b :: l) = Byte.to_N b * 256 ^ N.of_nat (List.length l) + be_decode l.
Proof.
  unfold be_decode at 1. cbn [fold_left]. now rewrite be_decode_from.
Qed.

Lemma be_encode_from_zero (fuel : nat) (acc : list byte) :
  be_encode_from fuel 0 acc = acc.
Proof. now destruct fuel. Qed.

(** The bytes written denote the number. *)
Lemma be_decode_encode_from (fuel : nat) : forall n acc,
  n < 256 ^ N.of_nat fuel ->
  be_decode (be_encode_from fuel n acc)
  = n * 256 ^ N.of_nat (List.length acc) + be_decode acc.
Proof.
  induction fuel as [| k IH]; intros n acc Hn; cbn [be_encode_from].
  - rewrite N.pow_0_r in Hn. assert (n = 0) as -> by lia. lia.
  - destruct (N.eqb_spec n 0) as [-> | Hn0]; [lia |].
    rewrite Nat2N.inj_succ, N.pow_succ_r' in Hn.
    rewrite IH by (apply N.Div0.div_lt_upper_bound; lia).
    rewrite be_decode_cons. cbn [List.length].
    rewrite Nat2N.inj_succ, N.pow_succ_r'.
    rewrite to_N_byte_of_N by (apply N.mod_lt; lia).
    pose proof (N.div_mod n 256 ltac:(lia)) as Hdm.
    set (q := n / 256) in *. set (r := n mod 256) in *.
    set (p := 256 ^ N.of_nat (List.length acc)).
    clearbody q r p. rewrite Hdm. lia.
Qed.

(** At most [fuel] bytes are written. *)
Lemma be_encode_from_length (fuel : nat) : forall n acc,
  (List.length (be_encode_from fuel n acc) <= fuel + List.length acc)%nat.
Proof.
  induction fuel as [| k IH]; intros n acc; cbn [be_encode_from]; [lia |].
  destruct (n =? 0); [lia |].
  specialize (IH (n / 256) (byte_of_N (n mod 256) :: acc)).
  cbn [List.length] in IH. lia.
Qed.

(** The first byte written for a number other than 0 is not 0. *)
Lemma be_encode_from_head (fuel : nat) : forall n acc,
  n < 256 ^ N.of_nat fuel -> n <> 0 ->
  exists b rest,
    be_encode_from fuel n acc = b :: rest /\ Byte.to_N b <> 0.
Proof.
  induction fuel as [| k IH]; intros n acc Hn Hn0; cbn [be_encode_from].
  - rewrite N.pow_0_r in Hn. lia.
  - destruct (N.eqb_spec n 0) as [| _]; [contradiction |].
    rewrite Nat2N.inj_succ, N.pow_succ_r' in Hn.
    destruct (N.eq_dec (n / 256) 0) as [Hq | Hq].
    + rewrite Hq, be_encode_from_zero.
      exists (byte_of_N (n mod 256)), acc. split; [reflexivity |].
      rewrite to_N_byte_of_N by (apply N.mod_lt; lia).
      pose proof (N.div_mod n 256 ltac:(lia)). lia.
    + apply IH; [apply N.Div0.div_lt_upper_bound; lia | assumption].
Qed.

Lemma firstn_length_append (A : Type) (l1 l2 : list A) :
  firstn (List.length l1) (l1 ++ l2) = l1.
Proof.
  rewrite firstn_app, firstn_all, Nat.sub_diag, firstn_0. apply app_nil_r.
Qed.

Lemma skipn_length_append (A : Type) (l1 l2 : list A) :
  skipn (List.length l1) (l1 ++ l2) = l2.
Proof.
  rewrite skipn_app, skipn_all, Nat.sub_diag. reflexivity.
Qed.

Lemma Ok_inj (A : Type) (x y : A) : Ok x = Ok y -> x = y.
Proof. now intros [= ->]. Qed.

Ltac ltb_is b :=
  match goal with
  | |- context [N.ltb ?x ?y] =>
      match b with
      | true => replace (N.ltb x y) with true
                  by (symmetry; apply N.ltb_lt; lia)
      | false => replace (N.ltb x y) with false
                   by (symmetry; apply N.ltb_ge; lia)
      end
  end.

(** A byte string written with a header is read back, unless it is a
    single byte that stands for itself. *)
Lemma rlp_decode_header (bs out : list byte) :
  (forall b, bs = [b] -> 128 <= Byte.to_N b) ->
  rlp_encode_header bs = Ok out ->
  rlp_decode_bytes out = Ok bs.
Proof.
  intros Hsingle. unfold rlp_encode_header. cbv zeta.
  set (n := N.of_nat (List.length bs)).
  destruct (N.ltb_spec n 56) as [Hshort | Hlong].
  - assert (Hh : Byte.to_N (byte_of_N (128 + n)) = 128 + n)
      by (apply to_N_byte_of_N; lia).
    set (h := byte_of_N (128 + n)) in *. clearbody h.
    intros H. apply Ok_inj in H. subst out. unfold rlp_decode_bytes. cbv zeta.
    rewrite Hh. fold n.
    ltb_is false. ltb_is true.
    replace (128 + n - 128) with n by lia.
    rewrite N.ltb_irrefl.
    destruct bs as [| b [| b' bs]]; try reflexivity.
    specialize (Hsingle b eq_refl). now ltb_is false.
  - destruct (N.ltb_spec n (2 ^ 64)) as [Hfit | _]; [| discriminate].
    intros H. apply Ok_inj in H. subst out.
    assert (Hfit' : n < 256 ^ N.of_nat 8) by exact Hfit.
    destruct (@be_encode_from_head 8 n [] Hfit' ltac:(lia))
      as (l0 & lrest & Hlb & Hl0).
    pose proof (be_encode_from_length 8 n []) as Hlen.
    pose proof (@be_decode_encode_from 8 n [] Hfit') as Hval.
    fold (be_encode n) in Hlb, Hlen, Hval. cbn [List.length] in Hlen, Hval.
    change (be_decode []) with 0 in Hval.
    rewrite N.pow_0_r in Hval.
    set (lb := be_encode n) in *.
    assert (Hll : (1 <= List.length lb <= 8)%nat).
    { rewrite Hlb in *. cbn [List.length] in *. lia. }
    assert (Hh : Byte.to_N (byte_of_N (183 + N.of_nat (List.length lb)))
                 = 183 + N.of_nat (List.length lb))
      by (apply to_N_byte_of_N; lia).
    set (h := byte_of_N (183 + N.of_nat (List.length lb))) in *. clearbody h.
    unfold rlp_decode_bytes. cbv zeta.
    rewrite Hh.
    ltb_is false. ltb_is false. ltb_is true.
    replace (N.to_nat (183 + N.of_nat (List.length lb) - 183))
      with (List.length lb) by lia.
    rewrite firstn_length_append, skipn_length_append.
    rewrite Nat.ltb_irrefl.
    rewrite Hlb at 1.
    destruct (N.eqb_spec (Byte.to_N l0) 0) as [| _]; [contradiction |].
    replace (be_decode lb) with n by lia. fold n.
    ltb_is false. now rewrite N.ltb_irrefl.
Qed.

Lemma rlp_decode_encode_bytes (bs out : list byte) :
  rlp_encode_bytes bs = Ok out -> rlp_decode_bytes out = Ok bs.
Proof.
  unfold rlp_encode_bytes.
  destruct bs as [| b [| b' bs]].
  - apply rlp_decode_header. discriminate.
  - destruct (N.ltb_spec (Byte.to_N b) 128) as [Hlow | Hhigh].
    + intros [= <-]. unfold rlp_decode_bytes. cbv zeta.
      now apply N.ltb_lt in Hlow as ->.
    + apply rlp_decode_header. now intros ? [= <-].
  - apply rlp_decode_header. discriminate.
Qed.

#[export] Instance lossless_byte_string : RlpLossless (list byte).
Proof. constructor. exact rlp_decode_encode_bytes. Qed.

#[export] Instance lossless_Name : RlpLossless Name.
Proof.
  constructor. intros v b H.
  cbn [rlp_EncodeToBytes rlp_DecodeBytes rlp_Name] in *.
  unfold rlp_encode_string in H. unfold rlp_decode_string.
  rewrite (rlp_decode_encode_bytes _ H).
  now rewrite string_of_list_byte_of_string.
Qed.

End ReferenceFacts.

(** ** More on the storage codec *)

Section StorageCodecMore.

Context {ids : IdentityTypes} {js : JsonStrings}.
Context {rlp_Name : Rlp Name} {rlp_PubKey : Rlp PubKey}
        {rlp_Address : Rlp Address}.

(** The four ways of [decode]: one for each tag it knows, with the result
    of the payload decoder, and one for the other tags. *)
Lemma decode_cases (a : Author) (sa : StorageAuthor) :
  (SA_Type sa = AccountNameType /\
   match rlp_DecodeBytes (T := Name) (SA_DataRaw sa) with
   | Ok n => decode a sa = (mkAuthor (Owner_Name n) (SA_Weight sa), None)
   | Err err => decode a sa = (a, Some err)
   end) \/
  (SA_Type sa = PubKeyType /\
   match rlp_DecodeBytes (T := PubKey) (SA_DataRaw sa) with
   | Ok k => decode a sa = (mkAuthor (Owner_PubKey k) (SA_Weight sa), None)
   | Err err => decode a sa = (a, Some err)
   end) \/
  (SA_Type sa = AddressType /\
   match rlp_DecodeBytes (T := Address) (SA_DataRaw sa) with
   | Ok ad => decode a sa = (mkAuthor (Owner_Address ad) (SA_Weight sa), None)
   | Err err => decode a sa = (a, Some err)
   end) \/
  (SA_Type sa <> AccountNameType /\ SA_Type sa <> PubKeyType /\
   SA_Type sa <> AddressType /\
   decode a sa = (a, Some (errors_New "author decode failed"))).
Proof.
  unfold decode.
  destruct (N.eqb_spec (SA_Type sa) AccountNameType) as [E0 | N0].
  { left. split; [exact E0 |].
    destruct (rlp_DecodeBytes (T := Name) (SA_DataRaw sa)); reflexivity. }
  destruct (N.eqb_spec (SA_Type sa) PubKeyType) as [E1 | N1].
  { right; left. split; [exact E1 |].
    destruct (rlp_DecodeBytes (T := PubKey) (SA_DataRaw sa)); reflexivity. }
  destruct (N.eqb_spec (SA_Type sa) AddressType) as [E2 | N2].
  { right; right; left. split; [exact E2 |].
    destruct (rlp_DecodeBytes (T := Address) (SA_DataRaw sa)); reflexivity. }
  right; right; right. repeat split; assumption.
Qed.

(** X1.  An owner made by [GenerateOwner] with a type other than the three
    declared ones is the nil owner, and an author of it can be neither
    stored nor marshalled: [encode] returns "author encode failed" and
    [MarshalJSON] returns "Author marshal failed". *)
Theorem GenerateOwner_unknown_type_unusable
    (author : string) (t : AuthorType) (weight : N) :
  t <> AccountNameType -> t <> PubKeyType -> t <> AddressType ->
  GenerateOwner author t = Owner_nil /\
  encode (NewAuthor (GenerateOwner author t) weight)
  = Err (errors_New "author encode failed") /\
  MarshalJSON (NewAuthor (GenerateOwner author t) weight)
  = Err (errors_New "Author marshal failed").
Proof.
  intros H0 H1 H2.
  assert (E : GenerateOwner author t = Owner_nil).
  { unfold GenerateOwner.
    destruct (N.eqb_spec t AccountNameType); [contradiction |].
    destruct (N.eqb_spec t PubKeyType); [contradiction |].
    destruct (N.eqb_spec t AddressType); [contradiction | reflexivity]. }
  rewrite E. repeat split.
Qed.

(** X2.  For each of the three declared types, the record that [encode]
    makes of an author built by [GenerateOwner] and [NewAuthor] carries
    the type given to the factory as its tag, and the weight given to
    [NewAuthor]. *)
Theorem GenerateOwner_encode_tag
    (author : string) (t : AuthorType) (weight : N) (sa : StorageAuthor) :
  t = AccountNameType \/ t = PubKeyType \/ t = AddressType ->
  encode (NewAuthor (GenerateOwner author t) weight) = Ok sa ->
  SA_Type sa = t /\ SA_Weight sa = weight.
Proof.
  intros Ht Henc.
  destruct (encode_Ok_inv _ Henc) as (Htag & Hw & _).
  cbn [NewAuthor Author_Owner Author_Weight] in Htag, Hw.
  split; [| exact Hw].
  destruct Ht as [-> | [-> | ->]]; cbn in Htag; congruence.
Qed.

(** X3.  When [decode] succeeds, the owner left in the receiver is of the
    variant that goes with the tag of the record, [GetWeight] gives the
    weight of the record, and nothing of the receiver's former value is
    left: any other receiver ends up the same. *)
Theorem decode_success_overwrites
    (a a' : Author) (sa : StorageAuthor) :
  decode a sa = (a', None) ->
  variant_tag (Author_Owner a') = Some (SA_Type sa) /\
  GetWeight a' = SA_Weight sa /\
  forall b, decode b sa = (a', None).
Proof.
  intros H. destruct (decode_Ok_tag _ _ H) as [Htag Hw].
  split; [exact Htag |]. split; [exact Hw |]. intros b.
  unfold decode in *.
  destruct (SA_Type sa =? AccountNameType).
  { destruct (rlp_DecodeBytes (T := Name) (SA_DataRaw sa));
      [exact H | discriminate]. }
  destruct (SA_Type sa =? PubKeyType).
  { destruct (rlp_DecodeBytes (T := PubKey) (SA_DataRaw sa));
      [exact H | discriminate]. }
  destruct (SA_Type sa =? AddressType).
  { destruct (rlp_DecodeBytes (T := Address) (SA_DataRaw sa));
      [exact H | discriminate]. }
  discriminate.
Qed.

(** X4.  The error that [decode] returns is the one of the payload decoder
    of the type that goes with the tag, unchanged, or, for a tag it does
    not know, "author decode failed". *)
Theorem decode_error_provenance
    (a a' : Author) (sa : StorageAuthor) (err : error) :
  decode a sa = (a', Some err) ->
  (SA_Type sa = AccountNameType /\
   rlp_DecodeBytes (T := Name) (SA_DataRaw sa) = Err err) \/
  (SA_Type sa = PubKeyType /\
   rlp_DecodeBytes (T := PubKey) (SA_DataRaw sa) = Err err) \/
  (SA_Type sa = AddressType /\
   rlp_DecodeBytes (T := Address) (SA_DataRaw sa) = Err err) \/
  (SA_Type sa <> AccountNameType /\ SA_Type sa <> PubKeyType /\
   SA_Type sa <> AddressType /\ err = errors_New "author decode failed").
Proof.
  intros H.
  destruct (decode_cases a sa)
    as [[E Ha] | [[E Ha] | [[E Ha] | (N0 & N1 & N2 & Ha)]]].
  - left. split; [exact E |].
    destruct (rlp_DecodeBytes (T := Name) (SA_DataRaw sa));
      rewrite Ha in H; congruence.
  - right; left. split; [exact E |].
    destruct (rlp_DecodeBytes (T := PubKey) (SA_DataRaw sa));
      rewrite Ha in H; congruence.
  - right; right; left. split; [exact E |].
    destruct (rlp_DecodeBytes (T := Address) (SA_DataRaw sa));
      rewrite Ha in H; congruence.
  - right; right; right. rewrite Ha in H. repeat split; congruence.
Qed.

(** X5.  The error that [encode] returns is the one of the payload encoder
    of the owner's type, unchanged, or, for an owner that is none of the
    three types, "author encode failed". *)
Theorem encode_error_provenance (a : Author) (err : error) :
  encode a = Err err ->
  match Author_Owner a with
  | Owner_Name n => rlp_EncodeToBytes n = Err err
  | Owner_PubKey k => rlp_EncodeToBytes k = Err err
  | Owner_Address ad => rlp_EncodeToBytes ad = Err err
  | Owner_nil | Owner_other _ _ => err = errors_New "author encode failed"
  end.
Proof.
  unfold encode.
  destruct (Author_Owner a) as [| n | k | ad | ty str].
  - congruence.
  - destruct (rlp_EncodeToBytes n); congruence.
  - destruct (rlp_EncodeToBytes k); congruence.
  - destruct (rlp_EncodeToBytes ad); congruence.
  - congruence.
Qed.

(** X6.  Every tag that [decode] accepts has a name in
    [AuthorTypeToString], and a record whose tag has no name there is
    rejected with "author decode failed", the receiver left as it was. *)
Theorem AuthorTypeToString_names_accepted_tags
    (a : Author) (sa : StorageAuthor) :
  (forall a', decode a sa = (a', None) ->
     exists name,
       map_lookup AuthorTypeToString (SA_Type sa) = Some name) /\
  (map_lookup AuthorTypeToString (SA_Type sa) = None ->
     decode a sa = (a, Some (errors_New "author decode failed"))).
Proof.
  destruct (decode_cases a sa)
    as [[E Ha] | [[E Ha] | [[E Ha] | (N0 & N1 & N2 & Ha)]]];
    try (rewrite E; split; [intros _ _; eexists; reflexivity | discriminate]).
  split; [| intros _; exact Ha].
  intros a' H. rewrite Ha in H. discriminate.
Qed.

(** X7.  The tag that [encode] writes has the name of the owner's variant
    in [AuthorTypeToString]: "account" for a [Name], "pubKey" for a
    [PubKey], "address" for an [Address]. *)
Theorem AuthorTypeToString_of_encoded (a : Author) (sa : StorageAuthor) :
  encode a = Ok sa ->
  map_lookup AuthorTypeToString (SA_Type sa)
  = match Author_Owner a with
    | Owner_Name _ => Some "account"
    | Owner_PubKey _ => Some "pubKey"
    | Owner_Address _ => Some "address"
    | Owner_nil | Owner_other _ _ => None
    end.
Proof.
  intros H. destruct (encode_Ok_inv _ H) as (Htag & _ & Hp).
  destruct (Author_Owner a); try contradiction;
    cbn in Htag; injection Htag as <-; reflexivity.
Qed.

Variable Writer : Type.
Variable rlp_Encode : Writer -> StorageAuthor -> Writer * option error.
Variable Stream : Type.
Variable Stream_Decode : Stream -> Stream * result StorageAuthor.

(** X8.  For an owner that is none of the three types, [EncodeRLP]
    returns "author encode failed" and hands nothing to [rlp.Encode]: the
    writer is as it was, whatever [rlp.Encode] would do. *)
Theorem EncodeRLP_unrecognized_writes_nothing (a : Author) (w : Writer) :
  known_variant (Author_Owner a) = false ->
  EncodeRLP rlp_Encode a w = (w, Some (errors_New "author encode failed")).
Proof.
  unfold EncodeRLP, encode.
  destruct (Author_Owner a); cbn [known_variant]; intros H;
    try discriminate; reflexivity.
Qed.

(** X9.  Whenever [DecodeRLP] returns an error, from the stream or from
    [decode], the receiver is as it was. *)
Theorem DecodeRLP_error_keeps_receiver
    (a a' : Author) (s s' : Stream) (err : error) :
  DecodeRLP Stream_Decode a s = (a', s', Some err) ->
  a' = a.
Proof.
  unfold DecodeRLP.
  destruct (Stream_Decode s) as [s1 [sa | e]]; [| congruence].
  destruct (decode a sa) as [a1 e1] eqn:Hd. intros [= -> _ ->].
  destruct (decode_cases a sa)
    as [[_ Ha] | [[_ Ha] | [[_ Ha] | (_ & _ & _ & Ha)]]];
    try (rewrite Ha in Hd; congruence);
    match type of Ha with
    | match ?r with _ => _ end =>
        destruct r; rewrite Ha in Hd; congruence
    end.
Qed.

(** X10.  What [DecodeRLP] leaves in the receiver on success is what
    [decode] makes of the record read from the stream: an owner of the
    variant that goes with the record's tag, and the record's weight; the
    stream is the one [Stream.Decode] left. *)
Theorem DecodeRLP_success (a a' : Author) (s s' : Stream) :
  DecodeRLP Stream_Decode a s = (a', s', None) ->
  exists sa,
    Stream_Decode s = (s', Ok sa) /\
    variant_tag (Author_Owner a') = Some (SA_Type sa) /\
    Author_Weight a' = SA_Weight sa.
Proof.
  unfold DecodeRLP.
  destruct (Stream_Decode s) as [s1 [sa | e]]; [| congruence].
  destruct (decode a sa) as [a1 e1] eqn:Hd. intros [= -> -> ->].
  exists sa. split; [reflexivity |]. exact (decode_Ok_tag _ _ Hd).
Qed.

End StorageCodecMore.

(** ** More on the owner factory *)

Section FactoryMore.

Context {ids : IdentityTypes}.

Lemma before_first_head (sep s r : string) (d : ascii) :
  before_first sep s = String d r -> exists s0, s = String d s0.
Proof.
  destruct s as [| c s]; cbn [before_first]; [discriminate |].
  destruct (String.prefix sep (String c s)); [discriminate |].
  intros [= -> _]. now exists s.
Qed.

(** What stands in front of the first ["0x"] does not begin with ["0x"]. *)
Lemma before_first_0x_no_prefix (s : string) :
  String.prefix "0x" (before_first "0x" s) = false.
Proof.
  destruct s as [| c s]; [reflexivity |].
  cbn [before_first].
  destruct (String.prefix "0x" (String c s)) eqn:E; [reflexivity |].
  apply not_true_is_false. intros H.
  apply prefix_0x_inv in H as [s' H].
  change ("0x" ++ s') with (String "0" (String "x" s')) in H.
  injection H as -> H.
  apply before_first_head in H as [s0 ->].
  change (String "0" (String "x" s0)) with ("0x" ++ s0) in E.
  rewrite prefix_0x_append in E. discriminate.
Qed.

Lemma before_first_length (sep s : string) :
  (String.length (before_first sep s) <= String.length s)%nat.
Proof.
  induction s as [| c s IH]; cbn [before_first]; [lia |].
  destruct (String.prefix sep (String c s)); cbn [String.length]; lia.
Qed.

Lemma formatStr_length (s : string) :
  (String.length (formatStr s) <= String.length s)%nat.
Proof.
  destruct (strings_HasPrefix s "0x") eqn:E.
  - apply prefix_0x_inv in E as [s' ->]. rewrite formatStr_0x.
    pose proof (before_first_length "0x" s').
    change ("0x" ++ s') with (String "0" (String "x" s')).
    cbn [String.length]. lia.
  - rewrite (formatStr_no_prefix _ E). lia.
Qed.

(** Two digits make a byte. *)
Lemma hex_DecodeString_length (s : string) :
  (2 * List.length (fst (hex_DecodeString s)) <= String.length s)%nat.
Proof.
  enough (H : forall n s, (String.length s <= n)%nat ->
            (2 * List.length (fst (hex_DecodeString s)) <= String.length s)%nat)
    by (apply (H (String.length s)); lia).
  clear s. induction n as [| n IH]; intros s Hlen.
  - destruct s; [cbn; lia | cbn in Hlen; lia].
  - destruct s as [| p [| q rest]].
    + cbn; lia.
    + cbn. destruct (fromHexChar p); cbn; lia.
    + cbn [hex_DecodeString String.length] in *.
      destruct (fromHexChar p); [| cbn; lia].
      destruct (fromHexChar q); [| cbn; lia].
      specialize (IH rest ltac:(lia)).
      destruct (hex_DecodeString rest) as [d err]. cbn [fst List.length] in *.
      lia.
Qed.

(** The two digits of a byte, as [hex.EncodeToString] writes them, are
    read back as the byte, and neither is the letter [x]. *)
Lemma hex_digits_of_byte (b : byte) :
  let hi := Byte.to_N b / 16 in
  let lo := Byte.to_N b mod 16 in
  fromHexChar (Reference.hex_digit hi) = Some hi /\
  fromHexChar (Reference.hex_digit lo) = Some lo /\
  hex_byte hi lo = b /\
  Reference.hex_digit hi <> "x"%char /\
  Reference.hex_digit lo <> "x"%char.
Proof.
  destruct b; vm_compute; repeat split; discriminate.
Qed.

Lemma hex_DecodeString_EncodeToString (bs : list byte) :
  hex_DecodeString (Reference.hex_EncodeToString bs) = (bs, None).
Proof.
  induction bs as [| b bs IH]; [reflexivity |].
  cbn [Reference.hex_EncodeToString hex_DecodeString].
  destruct (hex_digits_of_byte b) as (-> & -> & -> & _).
  now rewrite IH.
Qed.

Lemma hex_EncodeToString_no_0x (bs : list byte) :
  occurs "0x" (Reference.hex_EncodeToString bs) = false.
Proof.
  induction bs as [| b bs IH]; [reflexivity |].
  cbn [Reference.hex_EncodeToString occurs].
  destruct (hex_digits_of_byte b) as (_ & _ & _ & Hhi & Hlo).
  rewrite IH, orb_false_r. apply orb_false_iff. split.
  - apply not_true_is_false. intros H.
    apply prefix_0x_inv in H as [s' H].
    change ("0x" ++ s') with (String "0" (String "x" s')) in H.
    injection H as _ H _. contradiction.
  - apply not_true_is_false. intros H.
    apply prefix_0x_inv in H as [s' H].
    change ("0x" ++ s') with (String "0" (String "x" s')) in H.
    destruct bs as [| b' bs]; [discriminate |].
    cbn [Reference.hex_EncodeToString] in H.
    injection H as _ H _.
    destruct (hex_digits_of_byte b') as (_ & _ & _ & Hhi' & _).
    contradiction.
Qed.

(** X11.  The hexadecimal text of any byte sequence, as
    [hex.EncodeToString] writes it, with or without the prefix ["0x"],
    is decoded by [f] to that byte sequence: for the types [PubKeyType]
    and [AddressType] the factory builds the owner from exactly these
    bytes. *)
Theorem f_decodes_hex_text (bs : list byte) :
  f (Reference.hex_EncodeToString bs) = bs /\
  f ("0x" ++ Reference.hex_EncodeToString bs) = bs /\
  GenerateOwner ("0x" ++ Reference.hex_EncodeToString bs) PubKeyType
  = Owner_PubKey (PubKey_SetBytes PubKey_new bs) /\
  GenerateOwner ("0x" ++ Reference.hex_EncodeToString bs) AddressType
  = Owner_Address (Address_SetBytes Address_new bs).
Proof.
  pose proof (hex_EncodeToString_no_0x bs) as Hno.
  assert (H1 : f (Reference.hex_EncodeToString bs) = bs).
  { unfold f. rewrite formatStr_no_prefix by (now apply occurs_prefix).
    now rewrite hex_DecodeString_EncodeToString. }
  assert (H2 : f ("0x" ++ Reference.hex_EncodeToString bs) = bs).
  { unfold f. rewrite (formatStr_0x_clean _ Hno).
    now rewrite hex_DecodeString_EncodeToString. }
  repeat split; try assumption;
    unfold GenerateOwner; cbn [N.eqb AccountNameType PubKeyType AddressType
                                 Pos.eqb]; now rewrite H2.
Qed.

(** X12.  The factory never hands more bytes to [SetBytes] than half the
    length of the input text. *)
Theorem f_length_bound (s : string) :
  (2 * List.length (f s) <= String.length s)%nat.
Proof.
  unfold f.
  pose proof (hex_DecodeString_length (formatStr s)).
  pose proof (formatStr_length s). lia.
Qed.

(** X13.  For an input that begins with ["0x"], the factory uses only the
    text between this prefix and the next ["0x"]: for every type but
    [AccountNameType] the owner made of ["0x" ++ s] is the one made of
    the part of [s] in front of its first ["0x"]. *)
Theorem GenerateOwner_0x_up_to_next (s : string) (t : AuthorType) :
  t <> AccountNameType ->
  GenerateOwner ("0x" ++ s) t = GenerateOwner (before_first "0x" s) t.
Proof.
  intros Ht. unfold GenerateOwner, f.
  rewrite formatStr_0x.
  rewrite (formatStr_no_prefix (before_first "0x" s))
    by apply before_first_0x_no_prefix.
  destruct (N.eqb_spec t AccountNameType); [contradiction | reflexivity].
Qed.

End FactoryMore.

(** ** More on the JSON codec *)

Section JSONCodecMore.

Context {ids : IdentityTypes} {js : JsonStrings}.
Variable common_HexToAddress : string -> Owner.

(** A member that is named neither ["owner"] nor ["weight"] leaves the
    struct as it is. *)
Lemma unmarshal_member_other (aj : AuthorJSON) (key : string) (v : json) :
  EqualFold key "owner" = false ->
  EqualFold key "weight" = false ->
  unmarshal_member aj key v = Ok aj.
Proof. unfold unmarshal_member. now intros -> ->. Qed.

Lemma unmarshal_members_skip (key : string) (v : json) ms1 ms2 :
  EqualFold key "owner" = false ->
  EqualFold key "weight" = false ->
  forall aj,
    unmarshal_members aj (ms1 ++ (key, v) :: ms2)
    = unmarshal_members aj (ms1 ++ ms2).
Proof.
  intros Ho Hw. induction ms1 as [| [k1 v1] ms1 IH]; intros aj.
  - cbn [app unmarshal_members]. now rewrite unmarshal_member_other.
  - cbn [app unmarshal_members].
    destruct (unmarshal_member aj k1 v1); [apply IH | reflexivity].
Qed.

Lemma unmarshal_members_none ms :
  Forall (fun kv => EqualFold (fst kv) "owner" = false /\
                    EqualFold (fst kv) "weight" = false) ms ->
  forall aj, unmarshal_members aj ms = Ok aj.
Proof.
  induction 1 as [| [key v] ms [Ho Hw] _ IH]; intros aj; [reflexivity |].
  cbn [unmarshal_members fst] in *.
  now rewrite unmarshal_member_other.
Qed.

Lemma unmarshal_members_bad_weight (key lit : string) ms :
  In (key, JNumber lit) ms ->
  EqualFold key "weight" = true ->
  ParseUint lit = None ->
  forall aj, exists err, unmarshal_members aj ms = Err err.
Proof.
  intros Hin Hkey Hlit.
  induction ms as [| [k1 v1] ms IH]; intros aj; [contradiction |].
  cbn [unmarshal_members].
  destruct (unmarshal_member aj k1 v1) as [aj1 | e] eqn:E; [| eauto].
  destruct Hin as [[= -> ->] | Hin]; [| now apply IH].
  unfold unmarshal_member in E. rewrite Hkey, Hlit in E.
  destruct (EqualFold key "owner"); discriminate.
Qed.

(** X15.  Whenever [UnmarshalJSON] returns an error, the error is the one
    of [json.Unmarshal] and the receiver is as it was. *)
Theorem UnmarshalJSON_error_keeps_receiver
    (a a' : Author) (data : json_bytes) (err : error) :
  UnmarshalJSON common_HexToAddress a data = (a', Some err) ->
  a' = a /\ json_Unmarshal data AuthorJSON_zero = Err err.
Proof.
  unfold UnmarshalJSON.
  destruct (json_Unmarshal data AuthorJSON_zero) as [aj | e].
  - destruct (AJ_authorType aj =? AccountNameType); [discriminate |].
    destruct (AJ_authorType aj =? PubKeyType); [discriminate |].
    destruct (AJ_authorType aj =? AddressType); discriminate.
  - intros [= <- <-]. split; reflexivity.
Qed.

(** X16.  A member of the object that is named neither ["owner"] nor
    ["weight"], in any case of the letters, is not read: with or without
    it, whatever its value, [UnmarshalJSON] does the same.  So it is with
    a member ["type"]. *)
Theorem UnmarshalJSON_ignores_other_member
    (a : Author) (key : string) (v : json) (ms1 ms2 : list (string * json)) :
  EqualFold key "owner" = false ->
  EqualFold key "weight" = false ->
  UnmarshalJSON common_HexToAddress a
    (json_of (JObject (ms1 ++ (key, v) :: ms2)))
  = UnmarshalJSON common_HexToAddress a (json_of (JObject (ms1 ++ ms2))).
Proof.
  intros Ho Hw. unfold UnmarshalJSON. cbn [json_Unmarshal].
  now rewrite (@unmarshal_members_skip key v ms1 ms2 Ho Hw).
Qed.

(** X17.  Missing members are no error: for an object without a member
    named ["owner"] or ["weight"], and for [null], [UnmarshalJSON]
    succeeds and leaves the empty name and the weight 0 in the receiver,
    whatever it held. *)
Theorem UnmarshalJSON_missing_members
    (a : Author) (ms : list (string * json)) :
  Forall (fun kv => EqualFold (fst kv) "owner" = false /\
                    EqualFold (fst kv) "weight" = false) ms ->
  UnmarshalJSON common_HexToAddress a (json_of (JObject ms))
  = (mkAuthor (Owner_Name EmptyString) 0, None) /\
  UnmarshalJSON common_HexToAddress a (json_of JNull)
  = (mkAuthor (Owner_Name EmptyString) 0, None).
Proof.
  intros H. split; [| reflexivity].
  unfold UnmarshalJSON. cbn [json_Unmarshal].
  now rewrite (unmarshal_members_none H).
Qed.

(** X18.  A weight that is no [uint64] is refused: when the object has a
    member named ["weight"] whose value is a number that [ParseUint]
    rejects (negative, with a fraction or an exponent, or 2^64 and more),
    [UnmarshalJSON] returns an error and the receiver is as it was,
    wherever the member stands and whatever the others are. *)
Theorem UnmarshalJSON_rejects_bad_weight
    (a : Author) (key lit : string) (ms : list (string * json)) :
  In (key, JNumber lit) ms ->
  EqualFold key "weight" = true ->
  ParseUint lit = None ->
  exists err,
    UnmarshalJSON common_HexToAddress a (json_of (JObject ms))
    = (a, Some err).
Proof.
  intros Hin Hkey Hlit. unfold UnmarshalJSON. cbn [json_Unmarshal].
  destruct (@unmarshal_members_bad_weight key lit ms Hin Hkey Hlit
              AuthorJSON_zero)
    as [err ->].
  now exists err.
Qed.

(** X19.  [MarshalJSON] succeeds exactly for the owners of the three
    types; for the nil owner and every other type it returns an error. *)
Theorem MarshalJSON_succeeds_iff_known (a : Author) :
  (exists data, MarshalJSON a = Ok data) <->
  known_variant (Author_Owner a) = true.
Proof.
  unfold MarshalJSON.
  destruct (Author_Owner a); cbn [known_variant json_Marshal]; split;
    try reflexivity; try discriminate; try (intros _; eexists; reflexivity);
    intros [data H]; discriminate.
Qed.

(** X20.  What the JSON round trip keeps: for an author of one of the
    three types and a weight below 2^64, unmarshalling what [MarshalJSON]
    returned succeeds, whatever the receiver held, and leaves the weight
    and, as a [Name], the string form of the owner coerced to valid
    UTF-8. *)
Theorem JSON_round_trip_string_and_weight
    (a receiver : Author) (data : json_bytes) :
  Author_Weight a < 2 ^ 64 ->
  MarshalJSON a = Ok data ->
  exists str,
    Owner_String (Author_Owner a) = Some str /\
    UnmarshalJSON common_HexToAddress receiver data
    = (NewAuthor (Owner_Name (json_valid_utf8 str)) (GetWeight a), None).
Proof. exact (@UnmarshalJSON_MarshalJSON _ _ common_HexToAddress a receiver data). Qed.

(** X21.  Names survive the JSON round trip: for an author whose owner is
    a [Name] that renders as itself and is valid UTF-8, of a weight below
    2^64, [MarshalJSON] succeeds and [UnmarshalJSON] of its result leaves
    the very same author. *)
Theorem JSON_round_trip_Name (n : Name) (weight : N) (receiver : Author) :
  weight < 2 ^ 64 ->
  json_valid_utf8 (Name_String n) = n ->
  exists data,
    MarshalJSON (NewAuthor (Owner_Name n) weight) = Ok data /\
    UnmarshalJSON common_HexToAddress receiver data
    = (NewAuthor (Owner_Name n) weight, None).
Proof.
  intros Hw Hn. eexists. split; [reflexivity |].
  destruct (@UnmarshalJSON_MarshalJSON _ _ common_HexToAddress
              (NewAuthor (Owner_Name n) weight) receiver _ Hw eq_refl)
    as (str & Hs & Hu).
  cbn [NewAuthor Author_Owner Owner_String] in Hs. injection Hs as <-.
  rewrite Hn in Hu. exact Hu.
Qed.

End JSONCodecMore.

(** ASCII text is valid UTF-8: the coercion leaves it as it is. *)
Lemma coerce_ascii (s : string) :
  Forall (fun c => N_of_ascii c < 128) (list_ascii_of_string s) ->
  Utf8.coerce_from 0 s = s.
Proof.
  induction s as [| c s IH]; [reflexivity |].
  cbn [list_ascii_of_string]. intros H.
  apply Forall_cons_iff in H as [Hc Hs].
  cbn [Utf8.coerce_from Utf8.head_size].
  apply N.ltb_lt in Hc. rewrite Hc. now rewrite IH.
Qed.

(** ** The properties at work on the reference instance *)

Section Examples.

Import Reference ReferenceFacts.

Abbreviation alice := (mkAuthor (GenerateOwner "alice" AccountNameType) 3).
Abbreviation key := (mkAuthor (GenerateOwner "0xAABB" PubKeyType) 7).
Abbreviation empty := (mkAuthor Owner_nil 0).

Example encode_key :
  encode key
  = Ok {| SA_Type := PubKeyType; SA_DataRaw := [x82; xaa; xbb];
          SA_Weight := 7 |}.
Proof. reflexivity. Qed.

Example encode_alice :
  encode alice
  = Ok {| SA_Type := AccountNameType;
          SA_DataRaw := x85 :: list_byte_of_string "alice";
          SA_Weight := 3 |}.
Proof. reflexivity. Qed.

Example decode_truncated_payload :
  decode alice {| SA_Type := PubKeyType; SA_DataRaw := [x82; xaa];
                  SA_Weight := 7 |}
  = (alice, Some (rlp_error "rlp: value size exceeds available input length")).
Proof. reflexivity. Qed.

Example GenerateOwner_unknown_type : GenerateOwner "alice" 9 = Owner_nil.
Proof. reflexivity. Qed.

Example MarshalJSON_key (js : JsonStrings) :
  MarshalJSON key
  = Ok (json_of (JObject [ ("owner", JString (json_valid_utf8 "0xaabb"));
                           ("weight", JNumber "7") ])).
Proof. reflexivity. Qed.

Example UnmarshalJSON_type_member_ignored :
  UnmarshalJSON HexToAddress empty
    (json_of (JObject [ ("type", JNumber "1"); ("Owner", JString "0xaabb");
                        ("weight", JNumber "7") ]))
  = (mkAuthor (Owner_Name "0xaabb") 7, None).
Proof. reflexivity. Qed.

Example UnmarshalJSON_negative_weight :
  UnmarshalJSON HexToAddress alice
    (json_of (JObject [ ("owner", JString "bob"); ("weight", JNumber "-1") ]))
  = (alice, Some (json_error "cannot unmarshal number into Go struct field AuthorJSON.weight of type uint64")).
Proof. reflexivity. Qed.

End Examples.

Import Reference ReferenceFacts.

Lemma decode_encode_round_trip_witness :
  let a := mkAuthor (GenerateOwner "0xAABB" PubKeyType) 7 in
  let sa := {| SA_Type := PubKeyType; SA_DataRaw := [x82; xaa; xbb];
               SA_Weight := 7 |} in
  known_variant (Author_Owner a) = true /\
  encode a = Ok sa /\
  decode (mkAuthor Owner_nil 0) sa = (a, None).
Proof.
  split; [reflexivity |]. split; [reflexivity |].
  apply (@decode_encode_round_trip Reference.identities
           Reference.rlp_Name Reference.rlp_byte_string
           Reference.rlp_byte_string
           ReferenceFacts.lossless_Name ReferenceFacts.lossless_byte_string
           ReferenceFacts.lossless_byte_string);
    reflexivity.
Defined.

Lemma decode_unknown_tag_witness :
  let sa := {| SA_Type := 3; SA_DataRaw := [x82; xaa; xbb]; SA_Weight := 7 |} in
  let a := mkAuthor (Owner_Name "alice") 3 in
  SA_Type sa <> AccountNameType /\
  SA_Type sa <> PubKeyType /\
  SA_Type sa <> AddressType /\
  decode a sa
  = (a, Some (errors_New "author decode failed")).
Proof.
  split; [discriminate |]. split; [discriminate |]. split; [discriminate |].
  apply (@decode_unknown_tag Reference.identities); discriminate.
Defined.

Lemma encode_unrecognized_owner_witness :
  let a := mkAuthor (Owner_other "*types.Name" "alice") 3 in
  known_variant (Author_Owner a) = false /\
  encode a
  = Err (errors_New "author encode failed").
Proof.
  split; [reflexivity |].
  apply (@encode_unrecognized_owner Reference.identities); reflexivity.
Defined.

Lemma decode_error_keeps_receiver_witness :
  let sa := {| SA_Type := PubKeyType; SA_DataRaw := [x82; xaa]; SA_Weight := 7 |} in
  let a := mkAuthor (Owner_Name "alice") 3 in
  decode a sa
  = (a, Some (rlp_error "rlp: value size exceeds available input length")) /\
  a = a.
Proof.
  split; [reflexivity |].
  apply (@decode_error_keeps_receiver Reference.identities
           Reference.rlp_Name Reference.rlp_byte_string
           Reference.rlp_byte_string
           (mkAuthor (Owner_Name "alice") 3) (mkAuthor (Owner_Name "alice") 3)
           {| SA_Type := PubKeyType; SA_DataRaw := [x82; xaa]; SA_Weight := 7 |}
           (rlp_error "rlp: value size exceeds available input length")).
  reflexivity.
Defined.

Lemma UnmarshalJSON_always_Name_witness :
  let data := json_of (JObject [ ("owner", JString "0xaabb");
                                 ("weight", JNumber "7") ]) in
  let a := mkAuthor Owner_nil 0 in
  UnmarshalJSON Reference.HexToAddress a data
  = (mkAuthor (Owner_Name "0xaabb") 7, None) /\
  exists aj,
    json_Unmarshal data AuthorJSON_zero = Ok aj /\
    AJ_authorType aj = AccountNameType /\
    mkAuthor (Owner_Name "0xaabb") 7
    = mkAuthor (Owner_Name (AJ_OwnerStr aj)) (AJ_Weight aj) /\
    (forall ms, data = json_of (JObject ms) ->
                AJ_OwnerStr aj = owner_of_members EmptyString ms).
Proof.
  split; [reflexivity |].
  apply (@UnmarshalJSON_always_Name Reference.identities
           Reference.HexToAddress (mkAuthor Owner_nil 0)).
  reflexivity.
Defined.

Lemma GenerateOwner_on_bad_hex_witness :
  (PubKeyType = PubKeyType \/ PubKeyType = AddressType) /\
  snd (hex_DecodeString (formatStr "AAZZ")) <> None /\
  (exists good bad,
      formatStr "AAZZ" = good ++ bad /\
      hex_DecodeString good = (f "AAZZ", None) /\
      fst (hex_DecodeString bad) = [] /\
      snd (hex_DecodeString bad) <> None) /\
  GenerateOwner "AAZZ" PubKeyType
  = Owner_PubKey (PubKey_SetBytes PubKey_new (f "AAZZ")).
Proof.
  split; [now left |]. split; [discriminate |].
  apply (@GenerateOwner_on_bad_hex Reference.identities "AAZZ" PubKeyType);
    [now left | discriminate].
Defined.

(** ** The further properties at work on the reference instance *)

Import Envelope Utf8.

Lemma GenerateOwner_unknown_type_unusable_witness :
  9 <> AccountNameType /\ 9 <> PubKeyType /\ 9 <> AddressType /\
  (GenerateOwner "alice" 9 = Owner_nil /\
   encode (NewAuthor (GenerateOwner "alice" 9) 5)
   = Err (errors_New "author encode failed") /\
   MarshalJSON (NewAuthor (GenerateOwner "alice" 9) 5)
   = Err (errors_New "Author marshal failed")).
Proof.
  split; [discriminate |]. split; [discriminate |]. split; [discriminate |].
  apply (@GenerateOwner_unknown_type_unusable Reference.identities
           Utf8.json_strings Reference.rlp_Name Reference.rlp_byte_string
           Reference.rlp_byte_string "alice" 9 5); discriminate.
Defined.

Lemma GenerateOwner_encode_tag_witness :
  let sa := {| SA_Type := AddressType; SA_DataRaw := [x82; xaa; xbb];
               SA_Weight := 5 |} in
  (AddressType = AccountNameType \/ AddressType = PubKeyType \/
   AddressType = AddressType) /\
  encode (NewAuthor (GenerateOwner "0xaabb" AddressType) 5) = Ok sa /\
  (SA_Type sa = AddressType /\ SA_Weight sa = 5).
Proof.
  split; [right; right; reflexivity |]. split; [reflexivity |].
  apply (@GenerateOwner_encode_tag Reference.identities Reference.rlp_Name
           Reference.rlp_byte_string Reference.rlp_byte_string
           "0xaabb" AddressType 5);
    [right; right; reflexivity | reflexivity].
Defined.

Lemma decode_success_overwrites_witness :
  let sa := {| SA_Type := PubKeyType; SA_DataRaw := [x82; xaa; xbb];
               SA_Weight := 7 |} in
  let a := mkAuthor (Owner_Name "alice") 3 in
  let a' := mkAuthor (Owner_PubKey [xaa; xbb]) 7 in
  decode a sa = (a', None) /\
  (variant_tag (Author_Owner a') = Some (SA_Type sa) /\
   GetWeight a' = SA_Weight sa /\
   forall b, decode b sa = (a', None)).
Proof.
  split; [reflexivity |].
  apply (@decode_success_overwrites Reference.identities Reference.rlp_Name
           Reference.rlp_byte_string Reference.rlp_byte_string
           (mkAuthor (Owner_Name "alice") 3)).
  reflexivity.
Defined.

Lemma decode_error_provenance_witness :
  let sa := {| SA_Type := PubKeyType; SA_DataRaw := [x82; xaa];
               SA_Weight := 7 |} in
  let a := mkAuthor (Owner_Name "alice") 3 in
  let err := rlp_error "rlp: value size exceeds available input length" in
  decode a sa = (a, Some err) /\
  ((SA_Type sa = AccountNameType /\
    rlp_DecodeBytes (T := Name) (SA_DataRaw sa) = Err err) \/
   (SA_Type sa = PubKeyType /\
    rlp_DecodeBytes (T := PubKey) (SA_DataRaw sa) = Err err) \/
   (SA_Type sa = AddressType /\
    rlp_DecodeBytes (T := Address) (SA_DataRaw sa) = Err err) \/
   (SA_Type sa <> AccountNameType /\ SA_Type sa <> PubKeyType /\
    SA_Type sa <> AddressType /\ err = errors_New "author decode failed")).
Proof.
  split; [reflexivity |].
  apply (@decode_error_provenance Reference.identities Reference.rlp_Name
           Reference.rlp_byte_string Reference.rlp_byte_string
           (mkAuthor (Owner_Name "alice") 3) (mkAuthor (Owner_Name "alice") 3)).
  reflexivity.
Defined.

Lemma encode_error_provenance_witness :
  let a := mkAuthor (Owner_other "*types.Name" "alice") 3 in
  encode a = Err (errors_New "author encode failed") /\
  errors_New "author encode failed" = errors_New "author encode failed".
Proof.
  split; [reflexivity |].
  apply (@encode_error_provenance Reference.identities Reference.rlp_Name
           Reference.rlp_byte_string Reference.rlp_byte_string
           (mkAuthor (Owner_other "*types.Name" "alice") 3)).
  reflexivity.
Defined.

Lemma AuthorTypeToString_of_encoded_witness :
  let a := mkAuthor (GenerateOwner "0xAABB" PubKeyType) 7 in
  let sa := {| SA_Type := PubKeyType; SA_DataRaw := [x82; xaa; xbb];
               SA_Weight := 7 |} in
  encode a = Ok sa /\
  map_lookup AuthorTypeToString (SA_Type sa) = Some "pubKey".
Proof.
  split; [reflexivity |].
  apply (@AuthorTypeToString_of_encoded Reference.identities
           Reference.rlp_Name Reference.rlp_byte_string
           Reference.rlp_byte_string
           (mkAuthor (GenerateOwner "0xAABB" PubKeyType) 7)).
  reflexivity.
Defined.

Lemma EncodeRLP_unrecognized_writes_nothing_witness :
  let a := mkAuthor Owner_nil 3 in
  known_variant (Author_Owner a) = false /\
  EncodeRLP Envelope.Encode a [x01; x02]
  = ([x01; x02], Some (errors_New "author encode failed")).
Proof.
  split; [reflexivity |].
  apply (@EncodeRLP_unrecognized_writes_nothing Reference.identities
           Reference.rlp_Name Reference.rlp_byte_string
           Reference.rlp_byte_string (list byte) Envelope.Encode).
  reflexivity.
Defined.

Lemma DecodeRLP_error_keeps_receiver_witness :
  let a := mkAuthor (Owner_Name "alice") 3 in
  let s := [x09; x00; x00; x00; x00; x00; x00; x00; x00;
            x00; x00; x00; x00; x00; x00; x00; x07] in
  DecodeRLP Envelope.Decode a s
  = (a, [], Some (errors_New "author decode failed")) /\
  a = a.
Proof.
  split; [reflexivity |].
  apply (@DecodeRLP_error_keeps_receiver Reference.identities
           Reference.rlp_Name Reference.rlp_byte_string
           Reference.rlp_byte_string (list byte) Envelope.Decode
           (mkAuthor (Owner_Name "alice") 3) (mkAuthor (Owner_Name "alice") 3)
           [x09; x00; x00; x00; x00; x00; x00; x00; x00;
            x00; x00; x00; x00; x00; x00; x00; x07]
           [] (errors_New "author decode failed")).
  reflexivity.
Defined.

Lemma DecodeRLP_success_witness :
  let a := mkAuthor (Owner_Name "alice") 3 in
  let a' := mkAuthor (Owner_PubKey [xaa; xbb]) 7 in
  let s := [x01; x00; x00; x00; x00; x00; x00; x00; x03; x82; xaa; xbb;
            x00; x00; x00; x00; x00; x00; x00; x07; xff] in
  DecodeRLP Envelope.Decode a s = (a', [xff], None) /\
  exists sa,
    Envelope.Decode s = ([xff], Ok sa) /\
    variant_tag (Author_Owner a') = Some (SA_Type sa) /\
    Author_Weight a' = SA_Weight sa.
Proof.
  split; [reflexivity |].
  apply (@DecodeRLP_success Reference.identities
           Reference.rlp_Name Reference.rlp_byte_string
           Reference.rlp_byte_string (list byte) Envelope.Decode
           (mkAuthor (Owner_Name "alice") 3)).
  reflexivity.
Defined.

Lemma GenerateOwner_0x_up_to_next_witness :
  PubKeyType <> AccountNameType /\
  GenerateOwner ("0x" ++ "AA0xBB") PubKeyType
  = GenerateOwner (before_first "0x" "AA0xBB") PubKeyType.
Proof.
  split; [discriminate |].
  apply (@GenerateOwner_0x_up_to_next Reference.identities "AA0xBB" PubKeyType).
  discriminate.
Defined.

Lemma GenerateOwner_0x_clean_witness :
  AddressType <> AccountNameType /\
  occurs "0x" "aabb" = false /\
  GenerateOwner ("0x" ++ "aabb") AddressType
  = GenerateOwner "aabb" AddressType.
Proof.
  split; [discriminate |]. split; [reflexivity |].
  apply (@GenerateOwner_0x_clean Reference.identities "aabb" AddressType);
    [discriminate | reflexivity].
Defined.

Lemma Split_0x_prefix_index1_witness :
  strings_HasPrefix "0x" "0x" = true /\
  exists piece, nth_error (strings_Split "0x" "0x") 1 = Some piece.
Proof.
  split; [reflexivity |].
  apply (@Split_0x_prefix_index1 "0x"). reflexivity.
Defined.

Lemma UnmarshalJSON_error_keeps_receiver_witness :
  let a := mkAuthor (Owner_Name "alice") 3 in
  let err := json_error "cannot unmarshal into Go value of type types.AuthorJSON" in
  UnmarshalJSON Reference.HexToAddress a (json_of (JArray [])) = (a, Some err) /\
  (a = a /\ json_Unmarshal (json_of (JArray [])) AuthorJSON_zero = Err err).
Proof.
  split; [reflexivity |].
  apply (@UnmarshalJSON_error_keeps_receiver Reference.identities
           Reference.HexToAddress (mkAuthor (Owner_Name "alice") 3)).
  reflexivity.
Defined.

Lemma UnmarshalJSON_ignores_other_member_witness :
  let a := mkAuthor (Owner_Name "alice") 3 in
  EqualFold "type" "owner" = false /\
  EqualFold "type" "weight" = false /\
  UnmarshalJSON Reference.HexToAddress a
    (json_of (JObject ([("owner", JString "0xaabb")]
                       ++ ("type", JNumber "1") :: [("weight", JNumber "7")])))
  = UnmarshalJSON Reference.HexToAddress a
      (json_of (JObject ([("owner", JString "0xaabb")]
                         ++ [("weight", JNumber "7")]))).
Proof.
  split; [reflexivity |]. split; [reflexivity |].
  apply (@UnmarshalJSON_ignores_other_member Reference.identities
           Reference.HexToAddress (mkAuthor (Owner_Name "alice") 3)
           "type" (JNumber "1")); reflexivity.
Defined.

Lemma UnmarshalJSON_missing_members_witness :
  let a := mkAuthor (Owner_PubKey [xaa]) 3 in
  let ms := [("type", JNumber "1"); ("name", JString "alice")] in
  Forall (fun kv => EqualFold (fst kv) "owner" = false /\
                    EqualFold (fst kv) "weight" = false) ms /\
  (UnmarshalJSON Reference.HexToAddress a (json_of (JObject ms))
   = (mkAuthor (Owner_Name EmptyString) 0, None) /\
   UnmarshalJSON Reference.HexToAddress a (json_of JNull)
   = (mkAuthor (Owner_Name EmptyString) 0, None)).
Proof.
  assert (H : Forall (fun kv => EqualFold (fst kv) "owner" = false /\
                                EqualFold (fst kv) "weight" = false)
                [("type", JNumber "1"); ("name", JString "alice")]).
  { repeat constructor. }
  split; [exact H |].
  apply (@UnmarshalJSON_missing_members Reference.identities
           Reference.HexToAddress _ _ H).
Defined.

Lemma UnmarshalJSON_rejects_bad_weight_witness :
  let a := mkAuthor (Owner_Name "alice") 3 in
  let ms := [("owner", JString "bob");
             ("Weight", JNumber "18446744073709551616")] in
  In ("Weight", JNumber "18446744073709551616") ms /\
  EqualFold "Weight" "weight" = true /\
  ParseUint "18446744073709551616" = None /\
  exists err,
    UnmarshalJSON Reference.HexToAddress a (json_of (JObject ms))
    = (a, Some err).
Proof.
  split; [right; left; reflexivity |].
  split; [reflexivity |]. split; [reflexivity |].
  apply (@UnmarshalJSON_rejects_bad_weight Reference.identities
           Reference.HexToAddress (mkAuthor (Owner_Name "alice") 3)
           "Weight" "18446744073709551616");
    [right; left; reflexivity | reflexivity | reflexivity].
Defined.

Lemma JSON_round_trip_string_and_weight_witness :
  let a := mkAuthor (GenerateOwner "0xAABB" PubKeyType) 7 in
  let data := json_of (JObject [ ("owner", JString "0xaabb");
                                 ("weight", JNumber "7") ]) in
  Author_Weight a < 2 ^ 64 /\
  MarshalJSON a = Ok data /\
  exists str,
    Owner_String (Author_Owner a) = Some str /\
    UnmarshalJSON Reference.HexToAddress (mkAuthor Owner_nil 0) data
    = (NewAuthor (Owner_Name (json_valid_utf8 str)) (GetWeight a), None).
Proof.
  split; [reflexivity |]. split; [reflexivity |].
  apply (@JSON_round_trip_string_and_weight Reference.identities
           Utf8.json_strings Reference.HexToAddress
           (mkAuthor (GenerateOwner "0xAABB" PubKeyType) 7));
    reflexivity.
Defined.

Lemma JSON_round_trip_Name_witness :
  18446744073709551615 < 2 ^ 64 /\
  json_valid_utf8 (Name_String "alice") = "alice" /\
  exists data,
    MarshalJSON (NewAuthor (Owner_Name "alice") 18446744073709551615)
    = Ok data /\
    UnmarshalJSON Reference.HexToAddress (mkAuthor Owner_nil 0) data
    = (NewAuthor (Owner_Name "alice") 18446744073709551615, None).
Proof.
  split; [reflexivity |]. split; [reflexivity |].
  apply (@JSON_round_trip_Name Reference.identities Utf8.json_strings
           Reference.HexToAddress "alice" 18446744073709551615);
    reflexivity.
Defined.
